(** * neocities-sync: tree pairing, sync planning and ignore filtering

    A shallow embedding of the tree-diff and ignore-matching engine of
    neocities-sync ([filetree.py], [sync_actions.py], [treepathspec.py],
    [ignore_files.py], [utils.py]) together with the properties its
    specification states about it, and of what surrounds the engine: the
    local walk ([local.py]), the merging of configurations ([config.py]),
    the verbosity level ([log.py]) and the loops of [main] that apply the
    plan and remove empty directories ([__init__.py]).

    Conventions of the embedding:
    - a Python [str] is a [string]; characters are bytes and are ordered by
      their code, which is Python's ordering of code points on such strings;
    - [Optional[T]] is [option T]; a Python [int] is a [Z];
    - a [FileTree] is the list of entries it wraps;
    - a generator is the list of the values it yields, in order;
    - a raised exception is [None] in the [option] monad. *)

From Stdlib Require Import ZArith Ascii.
From stdpp Require Import base tactics option list sorting gmap strings.

#[local] Set Warnings "-clear-no-such-hyp".
Local Open Scope Z_scope.

(** ** Python string primitives *)

Module Py.

(** [s.startswith(prefix)] *)
Definition startswith (s prefix : string) : bool := String.prefix prefix s.

(** [s.endswith(suffix)] *)
Definition endswith (s suffix : string) : bool :=
  String.prefix (String.rev suffix) (String.rev s).

(** [s.split(sep)] for a one-character separator. *)
Fixpoint split (sep : ascii) (s : string) : list string :=
  match s with
  | EmptyString => [EmptyString]
  | String c s' =>
      if decide (c = sep) then EmptyString :: split sep s'
      else match split sep s' with
           | h :: t => String c h :: t
           | [] => [String c EmptyString]
           end
  end.

(** [sep.join(parts)] *)
Definition join (sep : string) (parts : list string) : string :=
  String.concat sep parts.

(** [s.rfind(c)] for a one-character needle: the highest index, or [-1]. *)
Fixpoint rfind (c : ascii) (s : string) : Z :=
  match s with
  | EmptyString => -1
  | String a s' =>
      let r := rfind c s' in
      if 0 <=? r then r + 1 else if decide (a = c) then 0 else -1
  end.

(** [s[i:]] for [0 <= i]. *)
Fixpoint drop (i : nat) (s : string) : string :=
  match i, s with
  | O, _ => s
  | S i', String _ s' => drop i' s'
  | S _, EmptyString => EmptyString
  end.

(** [s[i:j]] for [0 <= i]. *)
Definition slice (s : string) (i j : Z) : string :=
  String.substring (Z.to_nat i) (Z.to_nat (j - i)) s.

(** [c.upper()] on one character: exact on ASCII text, other characters
    are left as they are. *)
Definition upper_ascii (c : ascii) : ascii :=
  let n := N_of_ascii c in
  if ((97 <=? n) && (n <=? 122))%N then ascii_of_N (n - 32) else c.

(** [s.upper()] *)
Fixpoint upper (s : string) : string :=
  match s with
  | EmptyString => EmptyString
  | String c s' => String (upper_ascii c) (upper s')
  end.

(** [s.lstrip(c)] for a one-character set. *)
Fixpoint lstrip (c : ascii) (s : string) : string :=
  match s with
  | EmptyString => EmptyString
  | String a s' => if decide (a = c) then lstrip c s' else s
  end.

(** [s.rstrip()] and [s.strip()] on whitespace. *)
Fixpoint lstrip_space (s : string) : string :=
  match s with
  | EmptyString => EmptyString
  | String a s' => if Ascii.is_space a then lstrip_space s' else s
  end.

Definition strip (s : string) : string :=
  String.rev (lstrip_space (String.rev (lstrip_space s))).

(** Truthiness of an [Optional[bool]]: [None] and [False] are falsy. *)
Definition truthy (b : option bool) : bool := default false b.

End Py.

(** ** [posixpath]: the functions of [os.path] the program calls *)

Module posixpath.

(** [os.path.basename(p)]: [p[p.rfind('/') + 1:]]. *)
Definition basename (p : string) : string :=
  Py.drop (Z.to_nat (Py.rfind "/" p + 1)) p.

(** The scan of [genericpath._splitext] over the leading dots of the file
    name: [true] when a character other than the dot is met at an index
    in [[filenameIndex, filenameIndex + n)]. *)
Fixpoint splitext_scan (p : string) (filenameIndex : Z) (n : nat) : bool :=
  match n with
  | O => false
  | S n' =>
      if negb (String.eqb (Py.slice p filenameIndex (filenameIndex + 1)) ".")
      then true
      else splitext_scan p (filenameIndex + 1) n'
  end.

(** [os.path.splitext(p)] *)
Definition splitext (p : string) : string * string :=
  let sepIndex := Py.rfind "/" p in
  let dotIndex := Py.rfind "." p in
  if (sepIndex <? dotIndex)
     && splitext_scan p (sepIndex + 1) (Z.to_nat (dotIndex - (sepIndex + 1)))
  then (Py.slice p 0 dotIndex, Py.drop (Z.to_nat dotIndex) p)
  else (p, EmptyString).

(** [os.path.join(a, b)] *)
Definition join (a b : string) : string :=
  if Py.startswith b "/" then b
  else if bool_decide (a = "") || Py.endswith a "/" then a +:+ b
  else a +:+ "/" +:+ b.

(** The loop of [os.path.normpath] over the components. *)
Fixpoint normpath_comps (initial_slashes : bool) (new_comps : list string)
    (comps : list string) : list string :=
  match comps with
  | [] => new_comps
  | comp :: rest =>
      if bool_decide (comp = "") || bool_decide (comp = ".")
      then normpath_comps initial_slashes new_comps rest
      else if negb (bool_decide (comp = ".."))
              || (negb initial_slashes && bool_decide (new_comps = []))
              || bool_decide (last new_comps = Some "..")
      then normpath_comps initial_slashes (new_comps ++ [comp]) rest
      else normpath_comps initial_slashes (removelast new_comps) rest
  end.

(** [os.path.normpath(path)] *)
Definition normpath (path : string) : string :=
  if bool_decide (path = "") then "."
  else
    let initial_slashes :=
      if Py.startswith path "/"
      then if Py.startswith path "//" && negb (Py.startswith path "///")
           then 2%nat else 1%nat
      else 0%nat in
    let comps :=
      normpath_comps (negb (bool_decide (initial_slashes = 0%nat))) []
                     (Py.split "/" path) in
    let joined := Py.join "/" comps in
    let result :=
      String.concat "" (replicate initial_slashes "/") +:+ joined in
    if bool_decide (result = "") then "." else result.

(** [os.path.abspath(path)], with the working directory made explicit. *)
Definition abspath (cwd path : string) : string :=
  normpath (if Py.startswith path "/" then path else join cwd path).

(** Length of the common prefix of two component lists
    ([len(commonprefix([start_list, path_list]))]). *)
Fixpoint commonprefix_len (l1 l2 : list string) : nat :=
  match l1, l2 with
  | x :: l1', y :: l2' =>
      if bool_decide (x = y) then S (commonprefix_len l1' l2') else O
  | _, _ => O
  end.

(** [os.path.relpath(path, start)]; [None] is the [ValueError] raised on
    an empty [path]. *)
Definition relpath (cwd path start : string) : option string :=
  if bool_decide (path = "") then None
  else
    let nonempty := List.filter (λ x, negb (bool_decide (x = ""))) in
    let start_list := nonempty (Py.split "/" (abspath cwd start)) in
    let path_list := nonempty (Py.split "/" (abspath cwd path)) in
    let i := commonprefix_len start_list path_list in
    let rel_list :=
      replicate (length start_list - i) ".." ++ List.skipn i path_list in
    match rel_list with
    | [] => Some "."
    | first :: others => Some (foldl join first others)
    end.

End posixpath.

(** ** [utils.py] *)

Module utils.

Definition file_extension (file : string) : string :=
  (posixpath.splitext file).2.

Definition path_match_any_element (path : string) (condition : string → bool)
    : bool :=
  existsb condition (Py.split "/" path).

End utils.


(** ** [filetree.py] *)

(** [FileTreeEntry]: a file or a directory of a tree.  [size] and
    [sha1_hash] default to [None] and are given for files. *)
Record FileTreeEntry := {
  path : string;
  is_directory : bool;
  updated_at : string;
  size : option Z;
  sha1_hash : option string;
}.

Global Instance FileTreeEntry_eq_dec : EqDecision FileTreeEntry.
Proof. solve_decision. Defined.

(** [FileTreeEntry.extension] *)
Definition extension (self : FileTreeEntry) : string :=
  utils.file_extension (path self).

(** The tree is the list [__files], in the order it was built. *)
Definition FileTree := list FileTreeEntry.

Module FileTree.

Definition number_of_files (self : FileTree) : nat :=
  length (List.filter (λ file, negb (is_directory file)) self).

Definition number_of_directories (self : FileTree) : nat :=
  length (List.filter (λ file, is_directory file) self).

(** [find]: the first entry whose path is [p], if any. *)
Fixpoint find (self : FileTree) (p : string) : option FileTreeEntry :=
  match self with
  | [] => None
  | file :: rest =>
      if bool_decide (path file = p) then Some file else find rest p
  end.

(** [filter]: a new tree; the debug messages are not modelled. *)
Definition filter (self : FileTree) (condition : FileTreeEntry → bool)
    : FileTree :=
  List.filter condition self.

(** The second loop of [is_empty_dir]: [false] as soon as a file below
    [p] is met. *)
Fixpoint no_file_under (files : list FileTreeEntry) (p : string) : bool :=
  match files with
  | [] => true
  | file :: rest =>
      if Py.startswith (path file) (p +:+ "/") && negb (is_directory file)
      then false
      else no_file_under rest p
  end.

Definition is_empty_dir (self : FileTree) (p : string) : bool :=
  match find self p with
  | None => false
  | Some directory =>
      if negb (is_directory directory) then false
      else no_file_under self p
  end.

(** [sorted(set(paths))]: the set is a [gset], [sorted] orders its
    elements by [<=] on strings. *)
Definition sorted_set (paths : list string) : list string :=
  merge_sort String.le (elements (list_to_set paths : gset string)).

Definition all_paths (self other : FileTree) : list string :=
  let self_paths :=
    path <$> List.filter (λ file, negb (is_directory file)) self in
  let other_paths :=
    path <$> List.filter (λ file, negb (is_directory file)) other in
  sorted_set (self_paths ++ other_paths).

Definition zip (self other : FileTree)
    : list (option FileTreeEntry * option FileTreeEntry) :=
  (λ p, (find self p, find other p)) <$> all_paths self other.

Definition list_empty_directories (self : FileTree) : list string :=
  path <$> List.filter
    (λ directory, is_directory directory
                  && is_empty_dir self (path directory)) self.

End FileTree.

(** ** [sync_actions.py] *)

(** The three subclasses of [SyncAction]; each carries [path] and
    [reason]. *)
Inductive SyncAction :=
  | DoNothing (path reason : string)
  | DeleteRemote (path reason : string)
  | UpdateRemote (path reason : string).

Global Instance SyncAction_eq_dec : EqDecision SyncAction.
Proof. solve_decision. Defined.

Definition action_path (a : SyncAction) : string :=
  match a with
  | DoNothing p _ | DeleteRemote p _ | UpdateRemote p _ => p
  end.

Definition action_reason (a : SyncAction) : string :=
  match a with
  | DoNothing _ r | DeleteRemote _ r | UpdateRemote _ r => r
  end.

(** [isinstance(a, DeleteRemote)] *)
Definition is_DeleteRemote (a : SyncAction) : bool :=
  match a with DeleteRemote _ _ => true | _ => false end.

Definition is_DoNothing (a : SyncAction) : bool :=
  match a with DoNothing _ _ => true | _ => false end.

Definition is_UpdateRemote (a : SyncAction) : bool :=
  match a with UpdateRemote _ _ => true | _ => false end.

Definition _choose_action_for_pair
    (local remote : option FileTreeEntry) : list SyncAction :=
  match local, remote with
  | None, None => []
  | None, Some remote => [DeleteRemote (path remote) "File doesn't exist locally"]
  | Some local, None => [UpdateRemote (path local) "File doesn't exist in remote"]
  | Some local, Some remote =>
      if is_directory local && is_directory remote then []
      else if negb (is_directory local) && is_directory remote then
        [DeleteRemote (path local) "Path is a directory in remote";
         UpdateRemote (path local) "Path is a directory in remote"]
      else if is_directory local && negb (is_directory remote) then
        [DeleteRemote (path remote) "Path is a directory locally"]
      else if negb (bool_decide (size local = size remote)) then
        [UpdateRemote (path local) "Sizes differ"]
      else if negb (bool_decide (sha1_hash local = sha1_hash remote)) then
        [UpdateRemote (path local) "SHA1 hashes don't match"]
      else [DoNothing (path local) "No action needed"]
  end.

(** [len([p for p in deleted if path.startswith(p + "/")]) > 0] *)
Definition under_deleted (deleted : list string) (p : string) : bool :=
  (0 <? length (List.filter (λ d, Py.startswith p (d +:+ "/")) deleted))%nat.

(** The inner loop of [sync_actions] over the actions of one pair.  The
    state is the list [deleted]; the result is the new state and the
    actions yielded. *)
Fixpoint sync_inner (deleted : list string) (actions : list SyncAction)
    : list string * list SyncAction :=
  match actions with
  | [] => (deleted, [])
  | current_action :: rest =>
      if is_DeleteRemote current_action then
        if under_deleted deleted (action_path current_action)
        then sync_inner deleted rest
        else
          let '(deleted', yielded) :=
            sync_inner (deleted ++ [action_path current_action]) rest in
          (deleted', current_action :: yielded)
      else
        let '(deleted', yielded) := sync_inner deleted rest in
        (deleted', current_action :: yielded)
  end.

(** The outer loop of [sync_actions] over the pairs of [local.zip(remote)]. *)
Fixpoint sync_outer (deleted : list string)
    (pairs : list (option FileTreeEntry * option FileTreeEntry))
    : list string * list SyncAction :=
  match pairs with
  | [] => (deleted, [])
  | (local_entry, remote_entry) :: rest =>
      let '(deleted', yielded) :=
        sync_inner deleted (_choose_action_for_pair local_entry remote_entry) in
      let '(deleted'', yielded') := sync_outer deleted' rest in
      (deleted'', yielded ++ yielded')
  end.

Definition sync_actions (local remote : FileTree) : list SyncAction :=
  (sync_outer [] (FileTree.zip local remote)).2.

(** ** The [pathspec] package *)

(** The interface of the third-party [pathspec] package the program uses:
    [PathSpec.from_lines("gitwildmatch", lines)] and [spec.match_file(file)].
    [treepathspec.py] and [ignore_files.py] are embedded over any
    implementation of it. *)
Class PathSpecLib (PathSpec : Type) := {
  from_lines : list string → PathSpec;
  match_file : PathSpec → string → bool;
}.

(** Modelled from the spec: the PathSpec Matcher (the [pathspec] package is
    not part of the repository).  Patterns are evaluated in file order and a
    later pattern's verdict overrides an earlier one; a pattern with a path
    separator matches only from the scope root; a pattern without one
    matches the basename at any depth; [!pattern] un-ignores.  Patterns are
    made of literal characters, [*] and [?]; blank lines and [#] comments
    carry no rule. *)
Module gitwildmatch.

Record Pattern := {
  include : bool;
  anchored : bool;
  segments : list string;
}.

(** Glob match of one path segment. *)
Fixpoint glob (pat : string) : string → bool :=
  match pat with
  | EmptyString => λ s, bool_decide (s = "")
  | String c pat' =>
      if decide (c = "*"%char) then
        fix star (s : string) : bool :=
          glob pat' s
          || match s with
             | EmptyString => false
             | String _ s' => star s'
             end
      else if decide (c = "?"%char) then
        λ s, match s with
             | EmptyString => false
             | String _ s' => glob pat' s'
             end
      else
        λ s, match s with
             | EmptyString => false
             | String a s' => bool_decide (a = c) && glob pat' s'
             end
  end.

Fixpoint segments_match (pats names : list string) : bool :=
  match pats, names with
  | [], [] => true
  | pat :: pats', name :: names' => glob pat name && segments_match pats' names'
  | _, _ => false
  end.

Definition nonempty (l : list string) : list string :=
  List.filter (λ x, negb (bool_decide (x = ""))) l.

Definition parse_line (line : string) : option Pattern :=
  let s := Py.strip line in
  if bool_decide (s = "") || Py.startswith s "#" then None
  else
    let negated := Py.startswith s "!" in
    let body := if negated then Py.drop 1 s else s in
    Some {| include := negb negated;
            anchored := 0 <=? Py.rfind "/" body;
            segments := nonempty (Py.split "/" body) |}.

Definition pattern_matches (p : Pattern) (file : string) : bool :=
  if anchored p
  then segments_match (segments p) (nonempty (Py.split "/" file))
  else segments_match (segments p) [posixpath.basename file].

(** Modelled from the spec: [PathSpec.match_file] of the [pathspec] package,
    which is not part of the repository: the verdict of the last line whose
    pattern matches, [false] when none does. *)
Definition match_lines (lines : list string) (file : string) : bool :=
  foldl (λ verdict line,
           match parse_line line with
           | Some p => if pattern_matches p file then include p else verdict
           | None => verdict
           end) false lines.

End gitwildmatch.

Global Instance gitwildmatch_lib : PathSpecLib (list string) := {
  from_lines lines := lines;
  match_file := gitwildmatch.match_lines;
}.

(** ** [treepathspec.py] *)

Definition _add_slash (p : string) : string :=
  if bool_decide (p = ".") then "/"
  else if Py.startswith p "./" then Py.drop 1 p
  else if negb (Py.startswith p "/") then "/" +:+ p
  else p.

(** What [load] reads of the file system: the triples yielded by
    [os.walk(root_dir)] and the lines of the files it opens. *)
Record FileSystem := {
  os_walk : list (string * list string * list string);
  readlines : string → list string;
}.

Record TreePathSpec (PathSpec : Type) := {
  root_dir : string;
  pathspec_name : string;
  pathspec_list : list (string * PathSpec);
}.
Arguments root_dir {_} _.
Arguments pathspec_name {_} _.
Arguments pathspec_list {_} _.

Module TreePathSpec.
Section with_lib.
Context `{PathSpecLib PathSpec}.

(** [TreePathSpec(root_dir, pathspec_name)] *)
Definition init (root_dir pathspec_name : string) : TreePathSpec PathSpec :=
  {| root_dir := root_dir; pathspec_name := pathspec_name;
     pathspec_list := [] |}.

Definition _load_pathspec (self : TreePathSpec PathSpec)
    (spec_root : string) (lines : list string) : TreePathSpec PathSpec :=
  {| root_dir := root_dir self; pathspec_name := pathspec_name self;
     pathspec_list := pathspec_list self ++ [(spec_root, from_lines lines)] |}.

(** The loop of [match] over [__pathspec_list]; [cwd] is the working
    directory [os.path.relpath] resolves relative paths against. *)
Fixpoint match_loop (cwd : string) (l : list (string * PathSpec))
    (file : string) : option bool :=
  match l with
  | [] => Some false
  | (root, spec) :: rest =>
      relpath ← posixpath.relpath cwd file root;
      if negb (Py.startswith relpath "../")
      then if match_file spec (_add_slash relpath) then Some true
           else match_loop cwd rest file
      else match_loop cwd rest file
  end.

Definition match_ (cwd : string) (self : TreePathSpec PathSpec)
    (file : string) : option bool :=
  match_loop cwd (pathspec_list self) file.

(** [list.sort(key=lambda x: x[0], reverse=True)]: stable, descending. *)
Fixpoint insert_desc (x : string * PathSpec) (l : list (string * PathSpec))
    : list (string * PathSpec) :=
  match l with
  | [] => [x]
  | y :: l' =>
      if String.ltb x.1 y.1 then y :: insert_desc x l' else x :: l
  end.

Definition sort_desc (l : list (string * PathSpec))
    : list (string * PathSpec) :=
  foldr insert_desc [] l.

Definition load (fs : FileSystem) (self : TreePathSpec PathSpec)
    : TreePathSpec PathSpec :=
  let loaded :=
    foldl (λ self '(root, dirs, files),
             if bool_decide (pathspec_name self ∈ files)
             then _load_pathspec self (_add_slash root)
                    (readlines fs (posixpath.join root (pathspec_name self)))
             else self) self (os_walk fs) in
  {| root_dir := root_dir loaded; pathspec_name := pathspec_name loaded;
     pathspec_list := sort_desc (pathspec_list loaded) |}.

End with_lib.
End TreePathSpec.

(** ** [config.py] and [ignore_files.py] *)

(** [SiteConfig]; the fields [root_dir] and [allowed_extensions] carry the
    prefix [cfg_], their names being those of [TreePathSpec.root_dir] and
    of the module constant [allowed_extensions]. *)
Record SiteConfig := {
  cfg_root_dir : option string;
  api_key : option string;
  sync_disallowed : option bool;
  sync_hidden : option bool;
  sync_vcs : option bool;
  cfg_allowed_extensions : option (list string);
  remove_empty_dirs : option bool;
}.

Module IgnoreFiles.

(** The built-in allow-list, as the text the module splits. *)
Definition allowed_extensions : string :=
  "
    asc atom bin css csv dae eot epub geojson gif gltf htm html ico jpeg jpg js json key kml
    knowl less manifest markdown md mf mid midi mtl obj opml otf pdf pgp png rdf rss sass scss
    svg text tsv ttf txt webapp webmanifest webp woff woff2 xcf xml
".

Definition vcs_files : gset string :=
  list_to_set (String.words ".git .hg .svn .bzr ").

Section with_lib.
Context `{PathSpecLib PathSpec}.

Record t := {
  config : SiteConfig;
  pathspec : TreePathSpec PathSpec;
}.

(** [IgnoreFiles(config)]: the pathspecs of the working directory are
    loaded when the object is built. *)
Definition init (fs : FileSystem) (config : SiteConfig) : t :=
  {| config := config;
     pathspec :=
       TreePathSpec.load fs (TreePathSpec.init "." ".neocitiesignore") |}.

(** [tree.filter(condition)] for a condition that may raise: the
    comprehension stops at the first exception. *)
Fixpoint filter_raising (tree : FileTree)
    (condition : FileTreeEntry → option bool) : option FileTree :=
  match tree with
  | [] => Some []
  | file :: rest =>
      keep ← condition file;
      rest' ← filter_raising rest condition;
      Some (if keep : bool then file :: rest' else rest')
  end.

(** The upper-cased, dot-prefixed set of allowed extensions. *)
Definition allowed_set (config : SiteConfig) : gset string :=
  let exts :=
    match cfg_allowed_extensions config with
    | None => String.words allowed_extensions
    | Some exts => exts
    end in
  list_to_set ((λ ext, "." +:+ Py.upper (Py.lstrip "." ext)) <$> exts).

Definition filter (cwd : string) (self : t) (tree : FileTree)
    : option FileTree :=
  let tree :=
    FileTree.filter tree
      (λ f, negb (bool_decide
                    (posixpath.basename (path f) = ".neocitiesignore"))) in
  let tree :=
    if negb (Py.truthy (sync_disallowed (config self))) then
      let exts := allowed_set (config self) in
      FileTree.filter tree
        (λ f, is_directory f || bool_decide (Py.upper (extension f) ∈ exts))
    else tree in
  tree ← filter_raising tree
           (λ f, negb <$> TreePathSpec.match_ cwd (pathspec self) (path f));
  let tree :=
    if negb (Py.truthy (sync_hidden (config self))) then
      FileTree.filter tree
        (λ f, negb (utils.path_match_any_element (path f)
                      (λ p, Py.startswith p ".")))
    else tree in
  let tree :=
    if negb (Py.truthy (sync_vcs (config self))) then
      FileTree.filter tree
        (λ f, negb (utils.path_match_any_element (path f)
                      (λ p, bool_decide (p ∈ vcs_files))))
    else tree in
  Some tree.

End with_lib.
End IgnoreFiles.

(** ** Notions the properties are stated with *)

(** Strict lexicographic order, as [sorted] uses it. *)
Definition path_lt (a b : string) : Prop := String.ltb a b = true.

(** [p] is the path of a non-directory entry of the tree. *)
Definition file_path_of (self : FileTree) (p : string) : Prop :=
  ∃ e, e ∈ self ∧ path e = p ∧ is_directory e = false.

(** ** The pairwise decision table of the specification *)

(** The rows of the table, in its order: a guard on the pair and the
    actions of the row.  The reason texts are the program's. *)
Module DecisionTable.

Definition absent (e : option FileTreeEntry) : bool :=
  match e with None => true | Some _ => false end.

Definition present (e : option FileTreeEntry) : bool := negb (absent e).

Definition dir (e : option FileTreeEntry) : bool :=
  match e with Some e => is_directory e | None => false end.

Definition file (e : option FileTreeEntry) : bool :=
  match e with Some e => negb (is_directory e) | None => false end.

Definition path_of (e : option FileTreeEntry) : string :=
  match e with Some e => path e | None => "" end.

Definition same_size (l r : option FileTreeEntry) : bool :=
  bool_decide ((l ≫= size) = (r ≫= size)).

Definition same_hash (l r : option FileTreeEntry) : bool :=
  bool_decide ((l ≫= sha1_hash) = (r ≫= sha1_hash)).

Definition Row : Type :=
  (option FileTreeEntry → option FileTreeEntry → bool)
  * (option FileTreeEntry → option FileTreeEntry → list SyncAction).

Definition rows : list Row := [
  (λ l r, absent l && absent r,
   λ _ _, []);
  (λ l r, absent l && present r,
   λ _ r, [DeleteRemote (path_of r) "File doesn't exist locally"]);
  (λ l r, present l && absent r,
   λ l _, [UpdateRemote (path_of l) "File doesn't exist in remote"]);
  (λ l r, dir l && dir r,
   λ _ _, []);
  (λ l r, file l && dir r,
   λ l _, [DeleteRemote (path_of l) "Path is a directory in remote";
           UpdateRemote (path_of l) "Path is a directory in remote"]);
  (λ l r, dir l && file r,
   λ _ r, [DeleteRemote (path_of r) "Path is a directory locally"]);
  (λ l r, file l && file r && negb (same_size l r),
   λ l _, [UpdateRemote (path_of l) "Sizes differ"]);
  (λ l r, file l && file r && same_size l r && negb (same_hash l r),
   λ l _, [UpdateRemote (path_of l) "SHA1 hashes don't match"]);
  (λ l r, file l && file r && same_size l r && same_hash l r,
   λ l _, [DoNothing (path_of l) "No action needed"])
].

(** The first row, in table order, whose guard holds. *)
Fixpoint first_match (rows : list Row)
    (l r : option FileTreeEntry) : option (list SyncAction) :=
  match rows with
  | [] => None
  | (guard, result) :: rows' =>
      if guard l r then Some (result l r) else first_match rows' l r
  end.

Definition decide (l r : option FileTreeEntry) : option (list SyncAction) :=
  first_match rows l r.

End DecisionTable.

(** ** The planner's stream, as the specification describes it *)

(** The actions decided for the key [k] of the pairing. *)
Definition acts_of (local remote : FileTree) (k : string) : list SyncAction :=
  _choose_action_for_pair (FileTree.find local k) (FileTree.find remote k).

(** The decided actions of all pairs, in pairing order, before any
    suppression. *)
Definition decided (local remote : FileTree) : list SyncAction :=
  mjoin ((λ '(l, r), _choose_action_for_pair l r) <$> FileTree.zip local remote).

(** The paths of the [DeleteRemote] actions of a list of emitted actions:
    the running set of deleted paths. *)
Definition deleted_paths (emitted : list SyncAction) : list string :=
  action_path <$> List.filter is_DeleteRemote emitted.

(** Some recorded path [d] is a proper ancestor of [p]: [p] starts with
    [d + "/"]. *)
Definition has_ancestor_in (recorded : list string) (p : string) : bool :=
  existsb (λ d, Py.startswith p (d +:+ "/")) recorded.

(** The actions of a plan that target the path [p]. *)
Definition actions_at (p : string) (plan : list SyncAction) : list SyncAction :=
  List.filter (λ a, bool_decide (action_path a = p)) plan.

(** [p] is the path of a file of [one] and of no entry of [other]. *)
Definition only_in (one other : FileTree) (p : string) : Prop :=
  file_path_of one p ∧ FileTree.find other p = None.

(** ** Example trees *)

Module Examples.

Definition File (p : string) (sz : Z) (h : string) : FileTreeEntry :=
  {| path := p; is_directory := false;
     updated_at := "Sat, 13 Feb 2016 03:04:00 -0000";
     size := Some sz; sha1_hash := Some h |}.

Definition Directory (p : string) : FileTreeEntry :=
  {| path := p; is_directory := true;
     updated_at := "Sat, 13 Feb 2016 03:04:00 -0000";
     size := None; sha1_hash := None |}.

(** The example scenario of the specification. *)
Definition site_local : FileTree :=
  [File "index.html" 1023 "c8aac06f343c962a24a7eb111aad739ff48b7fb1";
   File "about.html" 271 "cfdf0bda2557c322be78302da23c32fec72ffc0b";
   Directory "img"].

Definition site_remote : FileTree :=
  [File "index.html" 1023 "c8aac06f343c962a24a7eb111aad739ff48b7fb1";
   File "about.html" 271 "41fe08fc0dd44e79f799d03ece903e62be25dc7d";
   File "old.html" 333 "63793f46c4d966f710974a0219e05641b0e49e42"].

(** Locally [blog] has become a file; the remote still has the directory
    [blog] and a file in it. *)
Definition blog_local : FileTree :=
  [File "blog" 271 "cfdf0bda2557c322be78302da23c32fec72ffc0b"].

Definition blog_remote : FileTree :=
  [Directory "blog";
   File "blog/post.html" 16793 "41fe08fc0dd44e79f799d03ece903e62be25dc7d"].

End Examples.

(** ** The conditions of the ignore policy, one per step *)

Module Policy.
Section with_lib.
Context `{PathSpecLib PathSpec}.

(** Step 1: the basename is not the ignore-file name. *)
Definition not_ignore_file (e : FileTreeEntry) : bool :=
  negb (String.eqb (posixpath.basename (path e)) ".neocitiesignore").

(** The allow-list in force: the configured one, or the built-in one. *)
Definition allow_list (config : SiteConfig) : list string :=
  match cfg_allowed_extensions config with
  | Some exts => exts
  | None => String.words IgnoreFiles.allowed_extensions
  end.

(** An extension (with its dot) and an allow-list item (with or without
    dots in front) are the same up to case. *)
Definition same_extension (ext item : string) : bool :=
  String.eqb (Py.upper ext) ("." +:+ Py.upper (Py.lstrip "." item)).

(** Step 2: sync-disallowed is on, or the entry is a directory, or its
    extension is in the allow-list. *)
Definition allowed (config : SiteConfig) (e : FileTreeEntry) : bool :=
  Py.truthy (sync_disallowed config)
  || is_directory e
  || existsb (same_extension (extension e)) (allow_list config).

(** Step 3: the layered pathspec does not match the path. *)
Definition not_matched (cwd : string) (spec : TreePathSpec PathSpec)
    (e : FileTreeEntry) : bool :=
  bool_decide (TreePathSpec.match_ cwd spec (path e) = Some false).

(** Step 4: sync-hidden is on, or no segment starts with a dot. *)
Definition not_hidden (config : SiteConfig) (e : FileTreeEntry) : bool :=
  Py.truthy (sync_hidden config)
  || forallb (λ seg, negb (Py.startswith seg ".")) (Py.split "/" (path e)).

(** Step 5: sync-vcs is on, or no segment is a VCS directory name. *)
Definition not_vcs (config : SiteConfig) (e : FileTreeEntry) : bool :=
  Py.truthy (sync_vcs config)
  || forallb (λ seg, negb (bool_decide (seg ∈ [".git"; ".hg"; ".svn"; ".bzr"])))
       (Py.split "/" (path e)).

Definition keeps (cwd : string) (self : IgnoreFiles.t)
    (e : FileTreeEntry) : bool :=
  not_ignore_file e
  && allowed (IgnoreFiles.config self) e
  && not_matched cwd (IgnoreFiles.pathspec self) e
  && not_hidden (IgnoreFiles.config self) e
  && not_vcs (IgnoreFiles.config self) e.

End with_lib.
End Policy.

(** A basename that starts with a dot and has no other dot. *)
Definition dotfile_name (name : string) : Prop :=
  ∃ rest, name = String "."%char rest ∧ Py.rfind "." rest = -1.

(** ** An example site with layered ignore files *)

Module IgnoreExamples.

(** A line as [readlines] returns it. *)
Definition line (s : string) : string := s +:+ String "010"%char "".

Definition cwd : string := "/home/user/site".

(** The site: [.neocitiesignore] with [*.log] at the root, and
    [keep/.neocitiesignore] with [!important.log]. *)
Definition fs : FileSystem := {|
  os_walk :=
    [(".", ["keep"; "other"], [".neocitiesignore"; "index.html"; ".bashrc"]);
     ("./keep", [], [".neocitiesignore"; "important.log"]);
     ("./other", [], ["debug.log"])];
  readlines := λ file,
    if bool_decide (file = "./.neocitiesignore") then [line "*.log"]
    else if bool_decide (file = "./keep/.neocitiesignore")
    then [line "!important.log"]
    else [];
|}.

Definition tree : FileTree :=
  [Examples.File ".neocitiesignore" 6 "0a1b";
   Examples.File "index.html" 1023 "c8aa";
   Examples.File ".bashrc" 12 "77f0";
   Examples.Directory "keep";
   Examples.File "keep/.neocitiesignore" 15 "1c2d";
   Examples.File "keep/important.log" 40 "3e4f";
   Examples.Directory "other";
   Examples.File "other/debug.log" 41 "5a6b"].

Definition config (disallowed hidden : bool) : SiteConfig :=
  {| cfg_root_dir := Some cwd; api_key := None;
     sync_disallowed := Some disallowed; sync_hidden := Some hidden;
     sync_vcs := Some false; cfg_allowed_extensions := None;
     remove_empty_dirs := Some true |}.

Definition ignore (disallowed hidden : bool) : IgnoreFiles.t (PathSpec := list string) :=
  IgnoreFiles.init fs (config disallowed hidden).

End IgnoreExamples.

(** ** The trees and pathspecs of the program's doctests *)

Module Doctests.

Definition foobar_entry : FileTreeEntry :=
  Examples.File "/foo/bar" 123 "41fe08fc0dd44e79f799d03ece903e62be25dc7d".

Definition foobar_entry_changed_size : FileTreeEntry :=
  Examples.File "/foo/bar" 456 "41fe08fc0dd44e79f799d03ece903e62be25dc7d".

Definition foobar_entry_changed_hash : FileTreeEntry :=
  Examples.File "/foo/bar" 123 "e293275f23a11972fde3032f93784de8c16ed384".

Definition foobar_entry_directory : FileTreeEntry :=
  Examples.Directory "/foo/bar".

Definition local : FileTree :=
  [Examples.File "index.html" 1023 "c8aac06f343c962a24a7eb111aad739ff48b7fb1";
   Examples.File "not_found_in_remote.html" 271
     "cfdf0bda2557c322be78302da23c32fec72ffc0b";
   Examples.File "images" 271 "cfdf0bda2557c322be78302da23c32fec72ffc0b";
   Examples.Directory "dir_locally";
   Examples.File "different_sizes" 271
     "cfdf0bda2557c322be78302da23c32fec72ffc0b";
   Examples.File "different_hashes" 333
     "63793f46c4d966f710974a0219e05641b0e49e42"].

Definition remote : FileTree :=
  [Examples.File "index.html" 1023 "c8aac06f343c962a24a7eb111aad739ff48b7fb1";
   Examples.File "not_found_in_local.html" 271
     "cfdf0bda2557c322be78302da23c32fec72ffc0b";
   Examples.Directory "images";
   Examples.File "images/cat.png" 16793
     "41fe08fc0dd44e79f799d03ece903e62be25dc7d";
   Examples.File "dir_locally" 16793
     "41fe08fc0dd44e79f799d03ece903e62be25dc7d";
   Examples.File "different_sizes" 333
     "cfdf0bda2557c322be78302da23c32fec72ffc0b";
   Examples.File "different_hashes" 333
     "33d1be055986a1abb1b31b6506abdf321d9b696b"].

Definition empties : FileTree :=
  [Examples.Directory "images";
   Examples.File "images/cat.png" 16793
     "41fe08fc0dd44e79f799d03ece903e62be25dc7d";
   Examples.Directory "empty-directory";
   Examples.Directory "empty-directory/empty-child";
   Examples.Directory "really-empty"].

(** The pathspecs of the doctest of [match], in the order they are loaded. *)
Definition spec : TreePathSpec (list string) :=
  TreePathSpec._load_pathspec
    (TreePathSpec._load_pathspec
       (TreePathSpec._load_pathspec
          (TreePathSpec.init "." ".testignore")
          "/txt" ["*.txt"; "!allowed.txt"])
       "/py" ["*.py"])
    "/" ["*.pyc"; "/py/*.abc"; "!allowed.pyc"].

End Doctests.

(** ** [config.py]: merging configurations *)

(** One attribute of [_merge_configs]: the second value when it is not
    [None], else the first. *)
Definition merge_attr {A} (first second : option A) : option A :=
  match second with
  | Some _ => second
  | None => first
  end.

Definition _merge_configs (first second : SiteConfig) : SiteConfig :=
  {| cfg_root_dir := merge_attr (cfg_root_dir first) (cfg_root_dir second);
     api_key := merge_attr (api_key first) (api_key second);
     sync_disallowed :=
       merge_attr (sync_disallowed first) (sync_disallowed second);
     sync_hidden := merge_attr (sync_hidden first) (sync_hidden second);
     sync_vcs := merge_attr (sync_vcs first) (sync_vcs second);
     cfg_allowed_extensions :=
       merge_attr (cfg_allowed_extensions first)
                  (cfg_allowed_extensions second);
     remove_empty_dirs :=
       merge_attr (remove_empty_dirs first) (remove_empty_dirs second) |}.

(** [SiteConfig()]: every attribute defaults to [None]. *)
Definition empty_config : SiteConfig :=
  {| cfg_root_dir := None; api_key := None; sync_disallowed := None;
     sync_hidden := None; sync_vcs := None; cfg_allowed_extensions := None;
     remove_empty_dirs := None |}.

Definition _default_config : SiteConfig :=
  {| cfg_root_dir := None; api_key := None;
     sync_disallowed := Some false; sync_hidden := Some false;
     sync_vcs := Some false; cfg_allowed_extensions := None;
     remove_empty_dirs := Some true |}.

(** ** [log.py]: the verbosity level *)

Module log.

Inductive LogLevel := DEBUG | INFO | WARN | ERROR | FATAL | NONE.

Definition value (level : LogLevel) : Z :=
  match level with
  | DEBUG => 0 | INFO => 1 | WARN => 2 | ERROR => 3 | FATAL => 4 | NONE => 5
  end.

(** The initial value of the global [_min_level]. *)
Definition initial_min_level : Z := value INFO.

(** [increase_verbosity] and [decrease_verbosity], as functions of the
    global [_min_level]. *)
Definition increase_verbosity (_min_level : Z) : Z :=
  if value DEBUG <? _min_level then _min_level - 1 else _min_level.

Definition decrease_verbosity (_min_level : Z) : Z :=
  if _min_level <? value NONE then _min_level + 1 else _min_level.

(** The test of [_log]: the message is written when it holds. *)
Definition logged (_min_level : Z) (level : LogLevel) : bool :=
  _min_level <=? value level.

(** The loops of [main] over [cmdline_opts.quietness]. *)
Definition set_verbosity (quietness : Z) (_min_level : Z) : Z :=
  if 0 <? quietness
  then Nat.iter (Z.to_nat quietness) decrease_verbosity _min_level
  else if quietness <? 0
  then Nat.iter (Z.to_nat (- quietness)) increase_verbosity _min_level
  else _min_level.

End log.

(** ** Notions for the layered pathspec *)

(** The non-empty components of a path, as [os.path.relpath] takes them. *)
Definition path_components (p : string) : list string :=
  List.filter (λ x, negb (bool_decide (x = ""))) (Py.split "/" p).

(** The scopes [load] reads from the file system, in walk order: one for
    each walked directory that has a file named [name]. *)
Definition walked_scopes `{PathSpecLib PathSpec} (fs : FileSystem)
    (name : string) : list (string * PathSpec) :=
  flat_map (λ '(root, dirs, files),
              if bool_decide (name ∈ files)
              then [(_add_slash root,
                     from_lines (readlines fs (posixpath.join root name)))]
              else []) (os_walk fs).

(** ** [__init__.py]: the removal of empty directories *)

(** [config] with its [sync_vcs] attribute set to [v]. *)
Definition set_sync_vcs (v : option bool) (config : SiteConfig) : SiteConfig :=
  {| cfg_root_dir := cfg_root_dir config; api_key := api_key config;
     sync_disallowed := sync_disallowed config;
     sync_hidden := sync_hidden config; sync_vcs := v;
     cfg_allowed_extensions := cfg_allowed_extensions config;
     remove_empty_dirs := remove_empty_dirs config |}.

Module main.

(** [sorted(l, reverse=True)] on strings: the descending arrangement of
    [l]. *)
Definition sorted_reverse (l : list string) : list string :=
  reverse (merge_sort String.le l).

(** The paths [main] deletes after the sync, in the order of its loop:
    [sorted(remote_filetree.list_empty_directories(), reverse=True)]. *)
Definition empty_dir_deletions (remote_filetree : FileTree) : list string :=
  sorted_reverse (FileTree.list_empty_directories remote_filetree).

End main.

(** ** [local.py]: walking the local directory *)

#[local] Set Warnings "-register-all".

Module local.

(** What the file system has at a path: a regular file with its size and
    the SHA1 of its content, a directory with its entries in the order
    [os.listdir] returns them, or something that is neither.  [updated_at]
    is the formatted modification time. *)
Inductive Node :=
  | RegularFile (name updated_at : string) (size : Z) (sha1 : string)
  | Dir (name updated_at : string) (children : list Node)
  | Special (name updated_at : string).

Definition name (node : Node) : string :=
  match node with
  | RegularFile name _ _ _ | Dir name _ _ | Special name _ => name
  end.

(** [os.path.isdir] *)
Definition isdir (node : Node) : bool :=
  match node with Dir _ _ _ => true | _ => false end.

(** [_list_files(path)]: [None] is the [RuntimeError] raised when [path]
    is not a directory. *)
Fixpoint _list_files (dir_path : Node) : option (list string) :=
  match dir_path with
  | Dir _ _ children =>
      Some (flat_map
              (λ child,
                 let filename := name child in
                 filename ::
                 (if isdir child
                  then posixpath.join filename
                         <$> default [] (_list_files child)
                  else []))
              children)
  | _ => None
  end.

(** What [os.path.join(path, filename)] denotes: the node reached from
    [path] through the components of [filename]. *)
Fixpoint lookup_components (node : Node) (components : list string)
    : option Node :=
  match components with
  | [] => Some node
  | component :: rest =>
      match node with
      | Dir _ _ children =>
          child ← List.find (λ n, String.eqb (name n) component) children;
          lookup_components child rest
      | _ => None
      end
  end.

(** The body of the loop of [filetree]: the entry of one listed name;
    [None] when the path is neither a file nor a directory, or is not
    found. *)
Definition entry (dir_path : Node) (filename : string)
    : option FileTreeEntry :=
  node ← lookup_components dir_path (Py.split "/" filename);
  match node with
  | RegularFile _ updated_at size sha1 =>
      Some {| path := filename; is_directory := false;
              updated_at := updated_at;
              size := Some size; sha1_hash := Some sha1 |}
  | Dir _ updated_at _ =>
      Some {| path := filename; is_directory := true;
              updated_at := updated_at;
              size := None; sha1_hash := None |}
  | Special _ _ => None
  end.

Definition filetree (dir_path : Node) : option FileTree :=
  filenames ← _list_files dir_path;
  mapM (entry dir_path) filenames.

(** A name as a directory listing has it: not empty, without a slash. *)
Definition valid_name (s : string) : Prop := s ≠ "" ∧ Py.rfind "/" s = -1.

(** A directory tree as a file system has it: in every directory the names
    are valid and pairwise distinct. *)
Inductive well_formed : Node → Prop :=
  | wf_file n t sz h : well_formed (RegularFile n t sz h)
  | wf_special n t : well_formed (Special n t)
  | wf_dir n t children :
      NoDup (name <$> children) →
      Forall (λ child, valid_name (name child)) children →
      Forall well_formed children →
      well_formed (Dir n t children).

(** The nodes below a directory with their paths, in listing order. *)
Fixpoint nodes_below (dir_path : Node) : list (string * Node) :=
  match dir_path with
  | Dir _ _ children =>
      flat_map
        (λ child,
           (name child, child) ::
           (prod_map (posixpath.join (name child)) id
              <$> nodes_below child))
        children
  | _ => []
  end.

(** The entry [filetree] builds for a node listed at [filename]. *)
Definition node_entry (listed : string * Node) : option FileTreeEntry :=
  match listed.2 with
  | RegularFile _ updated_at size sha1 =>
      Some {| path := listed.1; is_directory := false;
              updated_at := updated_at;
              size := Some size; sha1_hash := Some sha1 |}
  | Dir _ updated_at _ =>
      Some {| path := listed.1; is_directory := true;
              updated_at := updated_at;
              size := None; sha1_hash := None |}
  | Special _ _ => None
  end.

(** An example site on disk. *)
Definition example_site : Node :=
  Dir "." "t0"
    [RegularFile "index.html" "t1" 1023 "c8aa";
     Dir "img" "t2"
       [RegularFile "cat.png" "t3" 16793 "41fe";
        Dir "old" "t4" []];
     RegularFile "about.html" "t5" 271 "cfdf"].

End local.

(** ** [__init__.py]: applying the plan *)




(** * Properties *)

(** ** The program's doctests, replayed on the embedding *)

Example file_extension_doctest :
  utils.file_extension <$>
    ["/path/to/file.ext"; "/path/to/file"; "/path/to/file.abc.def";
     "/path/to/.bashrc"]
  = [".ext"; ""; ".def"; ""].
Proof. reflexivity. Qed.

Example path_match_any_element_doctest :
  utils.path_match_any_element "/foo/bar/baz" (λ x, Py.startswith x "b") = true
  ∧ utils.path_match_any_element "/foo/bar/baz" (λ x, Py.startswith x "a")
    = false
  ∧ utils.path_match_any_element "/foo/bar/.git"
      (λ x, bool_decide (x ∈ [".git"; ".hg"; ".svn"; ".bzr"])) = true.
Proof. repeat split; reflexivity. Qed.

Example add_slash_doctest :
  _add_slash <$> ["/home/user/"; "home/user"; "."; "/"; "test"; "./test"]
  = ["/home/user/"; "/home/user"; "/"; "/"; "/test"; "/test"].
Proof. reflexivity. Qed.

Example choose_action_doctest :
  _choose_action_for_pair None None = []
  ∧ _choose_action_for_pair None (Some Doctests.foobar_entry)
    = [DeleteRemote "/foo/bar" "File doesn't exist locally"]
  ∧ _choose_action_for_pair (Some Doctests.foobar_entry) None
    = [UpdateRemote "/foo/bar" "File doesn't exist in remote"]
  ∧ _choose_action_for_pair (Some Doctests.foobar_entry)
      (Some Doctests.foobar_entry)
    = [DoNothing "/foo/bar" "No action needed"]
  ∧ _choose_action_for_pair (Some Doctests.foobar_entry)
      (Some Doctests.foobar_entry_changed_size)
    = [UpdateRemote "/foo/bar" "Sizes differ"]
  ∧ _choose_action_for_pair (Some Doctests.foobar_entry)
      (Some Doctests.foobar_entry_changed_hash)
    = [UpdateRemote "/foo/bar" "SHA1 hashes don't match"]
  ∧ _choose_action_for_pair (Some Doctests.foobar_entry)
      (Some Doctests.foobar_entry_directory)
    = [DeleteRemote "/foo/bar" "Path is a directory in remote";
       UpdateRemote "/foo/bar" "Path is a directory in remote"]
  ∧ _choose_action_for_pair (Some Doctests.foobar_entry_directory)
      (Some Doctests.foobar_entry)
    = [DeleteRemote "/foo/bar" "Path is a directory locally"].
Proof. repeat split; reflexivity. Qed.

Example sync_actions_doctest :
  sync_actions Doctests.local Doctests.remote
  = [UpdateRemote "different_hashes" "SHA1 hashes don't match";
     UpdateRemote "different_sizes" "Sizes differ";
     DeleteRemote "dir_locally" "Path is a directory locally";
     DeleteRemote "images" "Path is a directory in remote";
     UpdateRemote "images" "Path is a directory in remote";
     DoNothing "index.html" "No action needed";
     DeleteRemote "not_found_in_local.html" "File doesn't exist locally";
     UpdateRemote "not_found_in_remote.html" "File doesn't exist in remote"].
Proof. vm_compute. reflexivity. Qed.

(** The example scenario of the specification. *)
Example sync_actions_site :
  sync_actions Examples.site_local Examples.site_remote
  = [UpdateRemote "about.html" "SHA1 hashes don't match";
     DoNothing "index.html" "No action needed";
     DeleteRemote "old.html" "File doesn't exist locally"].
Proof. vm_compute. reflexivity. Qed.

Example empty_directories_doctest :
  FileTree.is_empty_dir Doctests.empties <$>
    ["images"; "images/cat.png"; "empty-directory";
     "empty-directory/empty-child"; "really-empty"]
  = [false; false; true; true; true]
  ∧ FileTree.list_empty_directories Doctests.empties
    = ["empty-directory"; "empty-directory/empty-child"; "really-empty"].
Proof. split; reflexivity. Qed.

Example match_doctest :
  TreePathSpec.match_ IgnoreExamples.cwd Doctests.spec <$>
    ["/test.abc"; "/test.py"; "/test.pyc"; "/test.txt"; "/py/test.abc";
     "/txt/allowed.pyc"; "/py/test.py"; "/py/test.txt"; "/py/test.pyc";
     "/txt/allowed.txt"; "/txt/test.txt"]
  = Some <$>
    [false; false; true; false; true; false; true; false; true; false; true].
Proof. vm_compute. reflexivity. Qed.

(** ** Strings and their order *)

Lemma path_lt_spec a b : path_lt a b ↔ String.le a b ∧ a ≠ b.
Proof.
  unfold path_lt, String.le, String.ltb, String.leb.
  destruct (String.compare a b) eqn:Hc; simpl.
  - apply String.compare_eq_iff in Hc. split; [done|]. by intros [_ ?].
  - split; [intros _|done]. split; [done|]. intros ->.
    pose proof (String.compare_antisym b b) as Ha.
    rewrite Hc in Ha. done.
  - split; [done|]. by intros [? _].
Qed.

Lemma path_lt_irrefl a : ¬ path_lt a a.
Proof. rewrite path_lt_spec. by intros [_ ?]. Qed.

Lemma path_lt_asym a b : path_lt a b → ¬ path_lt b a.
Proof.
  rewrite !path_lt_spec. intros [Hab Hne] [Hba _].
  apply Hne. by apply (anti_symm String.le).
Qed.

Lemma startswith_inv s t :
  Py.startswith s t = true → ∃ u, s = t +:+ u.
Proof.
  unfold Py.startswith. revert s. induction t as [|a t IH]; intros s Hs.
  - by exists s.
  - destruct s as [|b s]; simpl in Hs; [done|].
    destruct (ascii_dec a b) as [->|]; [|done].
    destruct (IH _ Hs) as [u ->]. by exists u.
Qed.

(** A path that starts with [d + "/"] sorts strictly after [d]. *)
Lemma startswith_slash_lt d p :
  Py.startswith p (d +:+ "/") = true → path_lt d p.
Proof.
  intros [u ->]%startswith_inv. unfold path_lt, String.ltb.
  induction d as [|a d IH]; simpl; [done|].
  unfold Ascii.compare. rewrite N.compare_refl. apply IH.
Qed.

Lemma startswith_slash_ne d p :
  Py.startswith p (d +:+ "/") = true → d ≠ p.
Proof.
  intros Hp%startswith_slash_lt ->. by apply path_lt_irrefl in Hp.
Qed.

(** ** [FileTree.find] *)

Lemma find_Some self p e :
  FileTree.find self p = Some e → e ∈ self ∧ path e = p.
Proof.
  induction self as [|file rest IH]; simpl; [done|].
  case_bool_decide as Hp.
  - intros [= <-]. split; [left|done].
  - intros [??]%IH. split; [by right|done].
Qed.

Lemma find_None self p :
  FileTree.find self p = None ↔ ∀ e, e ∈ self → path e ≠ p.
Proof.
  induction self as [|file rest IH]; simpl.
  - split; [|done]. by intros _ e ?%elem_of_nil.
  - case_bool_decide as Hp.
    + split; [done|]. intros Hall. destruct (Hall file); [left|done].
    + rewrite IH. split.
      * intros Hall e [->|?]%elem_of_cons; auto.
      * intros Hall e ?. apply Hall. by right.
Qed.

Lemma find_is_Some self e :
  e ∈ self → is_Some (FileTree.find self (path e)).
Proof.
  intros He. destruct (FileTree.find self (path e)) eqn:Hf; [done|].
  rewrite find_None in Hf. by destruct (Hf e He).
Qed.

(** With unique paths, [find] returns the one entry that has the path. *)
Lemma find_NoDup self e :
  NoDup (path <$> self) → e ∈ self → FileTree.find self (path e) = Some e.
Proof.
  induction self as [|file rest IH]; simpl; [by intros _ ?%elem_of_nil|].
  rewrite NoDup_cons. intros [Hnotin Hnd] [->|He]%elem_of_cons.
  - by rewrite bool_decide_eq_true_2.
  - rewrite bool_decide_eq_false_2; [by apply IH|].
    intros Heq. apply Hnotin. rewrite Heq. by apply list_elem_of_fmap_2.
Qed.

(** ** [FileTree.zip]: the key set and its order *)

Lemma elem_of_sorted_set paths p : p ∈ FileTree.sorted_set paths ↔ p ∈ paths.
Proof.
  unfold FileTree.sorted_set.
  by rewrite merge_sort_Permutation, elem_of_elements, elem_of_list_to_set.
Qed.

Lemma NoDup_sorted_set paths : NoDup (FileTree.sorted_set paths).
Proof.
  unfold FileTree.sorted_set. rewrite merge_sort_Permutation.
  apply NoDup_elements.
Qed.

Lemma StronglySorted_strict {A} (R S : relation A) l :
  (∀ x y, R x y → x ≠ y → S x y) →
  StronglySorted R l → NoDup l → StronglySorted S l.
Proof.
  intros HRS. induction 1 as [|x l Hl IH Hx]; intros Hnd; [constructor|].
  apply NoDup_cons in Hnd as [Hnotin Hnd]. constructor; [by apply IH|].
  rewrite Forall_forall in Hx |- *. intros y Hy.
  apply HRS; [by apply Hx|]. by intros ->.
Qed.

Lemma sorted_set_lt paths : StronglySorted path_lt (FileTree.sorted_set paths).
Proof.
  apply (StronglySorted_strict String.le).
  - intros x y ??. by apply path_lt_spec.
  - apply StronglySorted_merge_sort; apply _.
  - apply NoDup_sorted_set.
Qed.

Lemma elem_of_file_paths self p :
  p ∈ path <$> List.filter (λ file, negb (is_directory file)) self
  ↔ file_path_of self p.
Proof.
  rewrite list_elem_of_fmap. unfold file_path_of. split.
  - intros (e & -> & He). apply list_elem_of_In, filter_In in He as [He Hd].
    exists e. split; [by apply list_elem_of_In|].
    split; [done|]. by apply negb_true_iff.
  - intros (e & He & <- & Hd). exists e. split; [done|].
    apply list_elem_of_In, filter_In. split; [by apply list_elem_of_In|].
    by rewrite Hd.
Qed.

Lemma elem_of_all_paths self other p :
  p ∈ FileTree.all_paths self other
  ↔ file_path_of self p ∨ file_path_of other p.
Proof.
  unfold FileTree.all_paths.
  by rewrite elem_of_sorted_set, elem_of_app, !elem_of_file_paths.
Qed.

Lemma StronglySorted_lookup_lt {A} (R : relation A) l i j x y :
  StronglySorted R l → l !! i = Some x → l !! j = Some y → (i < j)%nat → R x y.
Proof.
  intros Hl. revert i j. induction Hl as [|z l Hl IH Hz]; intros i j; [done|].
  destruct i as [|i], j as [|j]; simpl; try lia.
  - intros [= ->] Hy _. rewrite Forall_forall in Hz.
    apply Hz. by eapply list_elem_of_lookup_2.
  - intros ???. apply (IH i j); [done..|lia].
Qed.

(** ** The pairwise decision *)

(** C1: for every pair of optional entries, [_choose_action_for_pair]
    returns exactly the actions of the first row of the specification's
    precedence table whose guard holds, and some row always applies: both
    absent gives no action; local absent gives one [DeleteRemote] of the
    remote path; remote absent gives one [UpdateRemote] of the local path;
    two directories give no action; a local file against a remote directory
    gives [DeleteRemote] then [UpdateRemote]; a local directory against a
    remote file gives one [DeleteRemote]; two files give [UpdateRemote] when
    the sizes differ, else [UpdateRemote] when the hashes differ, else
    [DoNothing].  The size row comes before the hash row. *)
Theorem choose_action_follows_table (local remote : option FileTreeEntry) :
  DecisionTable.decide local remote
  = Some (_choose_action_for_pair local remote).
Proof.
  unfold DecisionTable.decide, DecisionTable.rows, _choose_action_for_pair.
  destruct local as [l|], remote as [r|]; simpl; try reflexivity.
  unfold DecisionTable.same_size, DecisionTable.same_hash; simpl.
  destruct (is_directory l), (is_directory r); simpl; try reflexivity.
  destruct (decide (size l = size r)) as [Hs|Hs].
  - rewrite !(bool_decide_eq_true_2 _ Hs); simpl.
    destruct (decide (sha1_hash l = sha1_hash r)) as [Hh|Hh].
    + by rewrite !(bool_decide_eq_true_2 _ Hh).
    + by rewrite !(bool_decide_eq_false_2 _ Hh).
  - by rewrite !(bool_decide_eq_false_2 _ Hs).
Qed.

(** ** Pairing *)

(** C5: [zip] yields the pair [(self.find(p), other.find(p))] for each key
    [p], once; the keys are exactly the paths of the non-directory entries
    of either tree; they are in strictly ascending lexicographic order; and
    a key [d] comes before every key that starts with [d + "/"]. *)
Theorem zip_keys_sorted_union (self other : FileTree) :
  let keys := FileTree.all_paths self other in
  FileTree.zip self other
    = (λ p, (FileTree.find self p, FileTree.find other p)) <$> keys
  ∧ NoDup keys
  ∧ (∀ p, p ∈ keys ↔ file_path_of self p ∨ file_path_of other p)
  ∧ StronglySorted path_lt keys
  ∧ (∀ i j d p,
       keys !! i = Some d → keys !! j = Some p →
       Py.startswith p (d +:+ "/") = true → (i < j)%nat).
Proof.
  intros keys. split; [done|]. split; [apply NoDup_sorted_set|].
  split; [apply elem_of_all_paths|]. split; [apply sorted_set_lt|].
  intros i j d p Hi Hj Hlt%startswith_slash_lt.
  destruct (Nat.lt_trichotomy i j) as [?|[->|Hji]]; [done|..].
  - rewrite Hi in Hj. injection Hj as ->. by apply path_lt_irrefl in Hlt.
  - pose proof (StronglySorted_lookup_lt path_lt keys j i p d
                  (sorted_set_lt _) Hj Hi Hji) as Hpd.
    by apply path_lt_asym in Hpd.
Qed.

(** ** Empty directories *)

Lemma no_file_under_spec files p :
  FileTree.no_file_under files p = true
  ↔ ∀ e, e ∈ files → is_directory e = false →
         Py.startswith (path e) (p +:+ "/") = false.
Proof.
  induction files as [|file rest IH]; simpl.
  - split; [|done]. by intros _ e ?%elem_of_nil.
  - destruct (Py.startswith (path file) (p +:+ "/")) eqn:Hs,
      (is_directory file) eqn:Hd; simpl.
    + rewrite IH. split.
      * intros Hall e [->|?]%elem_of_cons; [congruence|auto].
      * intros Hall e ?. apply Hall. by right.
    + split; [done|]. intros Hall.
      rewrite (Hall file) in Hs; [done|left|done].
    + rewrite IH. split.
      * intros Hall e [->|?]%elem_of_cons; [congruence|auto].
      * intros Hall e ?. apply Hall. by right.
    + rewrite IH. split.
      * intros Hall e [->|?]%elem_of_cons; [done|auto].
      * intros Hall e ?. apply Hall. by right.
Qed.

(** C7: [is_empty_dir p] holds exactly when [find p] is a directory entry
    and no non-directory entry has a path starting with [p + "/"]; so a
    directory under which there are only directories, however deep, is
    empty; and the paths listed by [list_empty_directories] are exactly the
    paths for which [is_empty_dir] holds. *)
Theorem is_empty_dir_iff (self : FileTree) (p : string) :
  (FileTree.is_empty_dir self p = true
   ↔ (∃ d, FileTree.find self p = Some d ∧ is_directory d = true)
     ∧ ∀ e, e ∈ self → is_directory e = false →
            Py.startswith (path e) (p +:+ "/") = false)
  ∧ ((∃ d, FileTree.find self p = Some d ∧ is_directory d = true)
     ∧ (∀ e, e ∈ self → Py.startswith (path e) (p +:+ "/") = true →
             is_directory e = true)
     → FileTree.is_empty_dir self p = true)
  ∧ (p ∈ FileTree.list_empty_directories self
     ↔ FileTree.is_empty_dir self p = true).
Proof.
  assert (FileTree.is_empty_dir self p = true
   ↔ (∃ d, FileTree.find self p = Some d ∧ is_directory d = true)
     ∧ ∀ e, e ∈ self → is_directory e = false →
            Py.startswith (path e) (p +:+ "/") = false) as Hiff.
  { unfold FileTree.is_empty_dir.
    destruct (FileTree.find self p) as [d|] eqn:Hf.
    - destruct (is_directory d) eqn:Hd; simpl.
      + rewrite no_file_under_spec. split; [eauto|]. by intros [_ ?].
      + split; [done|]. intros [(d' & [= <-] & Hd') _]. congruence.
    - split; [done|]. by intros [(d' & ? & _) _]. }
  split; [done|]. split.
  - intros [Hd Hall]. apply Hiff. split; [done|]. intros e He Hfile.
    destruct (Py.startswith (path e) (p +:+ "/")) eqn:Hs; [|done].
    rewrite (Hall e He Hs) in Hfile. done.
  - unfold FileTree.list_empty_directories. rewrite list_elem_of_fmap. split.
    + intros (d & -> & Hd). apply list_elem_of_In, filter_In in Hd as [_ Hd].
      by apply andb_true_iff in Hd as [_ ?].
    + intros Hp. pose proof Hp as [(d & Hf & Hd) _]%Hiff.
      apply find_Some in Hf as [Hin <-]. exists d. split; [done|].
      apply list_elem_of_In, filter_In. split; [by apply list_elem_of_In|].
      by rewrite Hd, Hp.
Qed.

(** ** The loops of [sync_actions] *)

Lemma under_deleted_spec deleted p :
  under_deleted deleted p = has_ancestor_in deleted p.
Proof.
  unfold under_deleted, has_ancestor_in.
  induction deleted as [|d deleted IH]; simpl; [done|].
  destruct (Py.startswith p (d +:+ "/")); simpl; [done|apply IH].
Qed.

Lemma has_ancestor_in_true recorded p :
  has_ancestor_in recorded p = true
  ↔ ∃ d, d ∈ recorded ∧ Py.startswith p (d +:+ "/") = true.
Proof.
  unfold has_ancestor_in. rewrite existsb_exists.
  by setoid_rewrite list_elem_of_In.
Qed.

Lemma has_ancestor_in_app recorded more p :
  has_ancestor_in recorded p = true →
  has_ancestor_in (recorded ++ more) p = true.
Proof.
  rewrite !has_ancestor_in_true. intros (d & Hd & Hs).
  exists d. split; [|done]. apply elem_of_app. by left.
Qed.

Lemma deleted_paths_app xs ys :
  deleted_paths (xs ++ ys) = deleted_paths xs ++ deleted_paths ys.
Proof. unfold deleted_paths. by rewrite List.filter_app, fmap_app. Qed.

Lemma elem_of_deleted_paths d emitted :
  d ∈ deleted_paths emitted ↔ ∃ r, DeleteRemote d r ∈ emitted.
Proof.
  unfold deleted_paths. rewrite list_elem_of_fmap. split.
  - intros (a & -> & Ha). apply list_elem_of_In, filter_In in Ha as [Ha Hd].
    destruct a as [| p r |]; try done. exists r. by apply list_elem_of_In.
  - intros [r Hr]. exists (DeleteRemote d r). split; [done|].
    apply list_elem_of_In, filter_In. split; [by apply list_elem_of_In|done].
Qed.

(** The inner loop over a concatenation runs over the first part, then over
    the second from the state the first part left. *)
Lemma sync_inner_app deleted xs ys :
  sync_inner deleted (xs ++ ys)
  = let '(deleted1, out1) := sync_inner deleted xs in
    let '(deleted2, out2) := sync_inner deleted1 ys in
    (deleted2, out1 ++ out2).
Proof.
  revert deleted. induction xs as [|a xs IH]; intros deleted; simpl.
  - by destruct (sync_inner deleted ys).
  - destruct (is_DeleteRemote a); [destruct (under_deleted _ _)|].
    + apply IH.
    + rewrite IH. destruct (sync_inner (deleted ++ _) xs) as [d1 o1].
      by destruct (sync_inner d1 ys).
    + rewrite IH. destruct (sync_inner deleted xs) as [d1 o1].
      by destruct (sync_inner d1 ys).
Qed.

(** The nested loops are one pass of the inner loop over the decided
    actions of all pairs. *)
Lemma sync_outer_flat deleted pairs :
  sync_outer deleted pairs
  = sync_inner deleted
      (mjoin ((λ '(l, r), _choose_action_for_pair l r) <$> pairs)).
Proof.
  revert deleted. induction pairs as [|[l r] pairs IH]; intros deleted; simpl.
  - done.
  - rewrite sync_inner_app.
    destruct (sync_inner deleted (_choose_action_for_pair l r)) as [d1 o1].
    by rewrite IH.
Qed.

(** The list [deleted] grows by exactly the paths of the [DeleteRemote]
    actions the loop yields. *)
Lemma sync_inner_deleted deleted xs :
  (sync_inner deleted xs).1 = deleted ++ deleted_paths (sync_inner deleted xs).2.
Proof.
  revert deleted. induction xs as [|a xs IH]; intros deleted; simpl.
  - by rewrite app_nil_r.
  - destruct (is_DeleteRemote a) eqn:Ha; [destruct (under_deleted _ _)|].
    + apply IH.
    + specialize (IH (deleted ++ [action_path a])).
      destruct (sync_inner (deleted ++ _) xs) as [d1 o1]. simpl in *.
      rewrite IH. unfold deleted_paths. simpl. rewrite Ha. simpl.
      by rewrite <-app_assoc.
    + specialize (IH deleted). destruct (sync_inner deleted xs) as [d1 o1].
      simpl in *. rewrite IH. unfold deleted_paths. simpl. by rewrite Ha.
Qed.

(** Every yielded action was decided. *)
Lemma sync_inner_elem_of deleted xs a :
  a ∈ (sync_inner deleted xs).2 → a ∈ xs.
Proof.
  revert deleted. induction xs as [|x xs IH]; intros deleted; simpl.
  - done.
  - destruct (is_DeleteRemote x); [destruct (under_deleted _ _)|].
    + intros ?%IH. by right.
    + specialize (IH (deleted ++ [action_path x])).
      destruct (sync_inner (deleted ++ _) xs) as [d1 o1]. simpl in *.
      intros [->|?]%elem_of_cons; [left|right; auto].
    + specialize (IH deleted). destruct (sync_inner deleted xs) as [d1 o1].
      simpl in *. intros [->|?]%elem_of_cons; [left|right; auto].
Qed.

(** Only [DeleteRemote] actions are ever dropped. *)
Lemma sync_inner_keeps deleted xs a :
  a ∈ xs → is_DeleteRemote a = false → a ∈ (sync_inner deleted xs).2.
Proof.
  revert deleted. induction xs as [|x xs IH]; intros deleted; simpl.
  - by intros ?%elem_of_nil.
  - intros Hin Ha. destruct (is_DeleteRemote x) eqn:Hx;
      [destruct (under_deleted _ _)|].
    + apply elem_of_cons in Hin as [->|?]; [congruence|by apply IH].
    + specialize (IH (deleted ++ [action_path x])).
      destruct (sync_inner (deleted ++ _) xs) as [d1 o1]. simpl in *.
      apply elem_of_cons in Hin as [->|?]; [left|right; auto].
    + specialize (IH deleted). destruct (sync_inner deleted xs) as [d1 o1].
      simpl in *. apply elem_of_cons in Hin as [->|?]; [left|right; auto].
Qed.

(** Once an ancestor of [p] is recorded, no [DeleteRemote] of [p] is
    yielded. *)
Lemma sync_inner_suppressed deleted xs p r :
  has_ancestor_in deleted p = true →
  DeleteRemote p r ∉ (sync_inner deleted xs).2.
Proof.
  revert deleted. induction xs as [|x xs IH]; intros deleted Hanc; simpl.
  - by intros ?%elem_of_nil.
  - destruct (is_DeleteRemote x) eqn:Hx;
      [destruct (under_deleted _ _) eqn:Hu|].
    + by apply IH.
    + specialize (IH (deleted ++ [action_path x])
                     (has_ancestor_in_app _ _ _ Hanc)).
      destruct (sync_inner (deleted ++ _) xs) as [d1 o1]. simpl in *.
      intros [<-|?]%elem_of_cons; [|done]. simpl in Hu.
      rewrite under_deleted_spec in Hu. congruence.
    + specialize (IH deleted Hanc).
      destruct (sync_inner deleted xs) as [d1 o1]. simpl in *.
      intros [<-|?]%elem_of_cons; done.
Qed.

(** One more decided action: what the loop does with it. *)
Lemma sync_inner_snoc deleted pre a :
  sync_inner deleted (pre ++ [a])
  = let '(recorded, emitted) := sync_inner deleted pre in
    if is_DeleteRemote a && has_ancestor_in recorded (action_path a)
    then (recorded, emitted)
    else (if is_DeleteRemote a then recorded ++ [action_path a] else recorded,
          emitted ++ [a]).
Proof.
  rewrite sync_inner_app. destruct (sync_inner deleted pre) as [d1 o1]. simpl.
  rewrite under_deleted_spec.
  destruct (is_DeleteRemote a), (has_ancestor_in d1 (action_path a));
    simpl; by rewrite ?app_nil_r.
Qed.

(** ** The plan, key by key *)

Lemma decided_keys local remote :
  decided local remote
  = mjoin (acts_of local remote <$> FileTree.all_paths local remote).
Proof.
  unfold decided, FileTree.zip. by rewrite <-list_fmap_compose.
Qed.

Lemma sync_actions_flat local remote :
  sync_actions local remote = (sync_inner [] (decided local remote)).2.
Proof. unfold sync_actions. by rewrite sync_outer_flat. Qed.

(** Every action decided for the key [k] has the path [k]. *)
Lemma acts_of_path local remote k a :
  a ∈ acts_of local remote k → action_path a = k.
Proof.
  unfold acts_of, _choose_action_for_pair.
  destruct (FileTree.find local k) as [l|] eqn:Hl,
    (FileTree.find remote k) as [r|] eqn:Hr;
    try apply find_Some in Hl as [_ Hl]; try apply find_Some in Hr as [_ Hr].
  - repeat case_match; set_solver.
  - set_solver.
  - set_solver.
  - set_solver.
Qed.

Lemma elem_of_decided_keys local remote ks a :
  a ∈ mjoin (acts_of local remote <$> ks) → action_path a ∈ ks.
Proof.
  induction ks as [|k ks IH]; simpl; [by intros ?%elem_of_nil|].
  intros [Ha|Ha]%elem_of_app.
  - apply acts_of_path in Ha as ->. apply elem_of_cons. by left.
  - apply elem_of_cons. right. by apply IH.
Qed.

Lemma all_paths_split local remote p :
  p ∈ FileTree.all_paths local remote →
  ∃ ks1 ks2,
    FileTree.all_paths local remote = ks1 ++ p :: ks2
    ∧ (∀ k, k ∈ ks1 → path_lt k p) ∧ (∀ k, k ∈ ks2 → path_lt p k).
Proof.
  intros (ks1 & ks2 & Heq)%list_elem_of_split. exists ks1, ks2.
  split; [done|].
  pose proof (sorted_set_lt
    ((path <$> List.filter (λ file, negb (is_directory file)) local)
     ++ (path <$> List.filter (λ file, negb (is_directory file)) remote)))
    as Hsorted.
  fold (FileTree.all_paths local remote) in Hsorted. rewrite Heq in Hsorted.
  apply StronglySorted_app in Hsorted as (Hlt & _ & Hs2).
  apply StronglySorted_cons in Hs2 as [Hgt _]. split.
  - intros k Hk. apply Hlt; [done|left].
  - intros k Hk. rewrite Forall_forall in Hgt. by apply Hgt.
Qed.

(** The plan around a key [p]: what was yielded for the keys before [p],
    what is yielded for [p] from the state they left, and what is yielded
    for the keys after [p]. *)
Lemma plan_at_key local remote p :
  p ∈ FileTree.all_paths local remote →
  ∃ before at_p after recorded,
    sync_actions local remote = before ++ at_p ++ after
    ∧ at_p = (sync_inner (deleted_paths before) (acts_of local remote p)).2
    ∧ (∀ a, a ∈ before → path_lt (action_path a) p)
    ∧ (∀ a, a ∈ at_p → action_path a = p)
    ∧ (∀ a, a ∈ after → path_lt p (action_path a))
    ∧ recorded = deleted_paths before.
Proof.
  intros (ks1 & ks2 & Heq & Hlt & Hgt)%all_paths_split.
  rewrite sync_actions_flat, decided_keys, Heq.
  rewrite fmap_app, fmap_cons, join_app. simpl. rewrite sync_inner_app.
  pose proof (sync_inner_deleted [] (mjoin (acts_of local remote <$> ks1)))
    as Hd1.
  pose proof (λ a, sync_inner_elem_of []
                (mjoin (acts_of local remote <$> ks1)) a) as Hsub1.
  destruct (sync_inner [] (mjoin (acts_of local remote <$> ks1)))
    as [d1 o1]. simpl in Hd1, Hsub1. subst d1.
  rewrite sync_inner_app.
  pose proof (λ a, sync_inner_elem_of (deleted_paths o1)
                (acts_of local remote p) a) as Hsubp.
  destruct (sync_inner (deleted_paths o1) (acts_of local remote p))
    as [d2 op] eqn:Hp.
  pose proof (λ a, sync_inner_elem_of d2
                (mjoin (acts_of local remote <$> ks2)) a) as Hsub2.
  destruct (sync_inner d2 (mjoin (acts_of local remote <$> ks2)))
    as [d3 o2]. simpl in Hsubp, Hsub2. simpl.
  exists o1, op, o2, (deleted_paths o1). split; [done|].
  split; [by rewrite Hp|].
  split; [|split; [|split; [|done]]].
  - intros a Ha. by apply Hlt, elem_of_decided_keys with local remote, Hsub1.
  - intros a Ha. by apply acts_of_path with local remote, Hsubp.
  - intros a Ha. by apply Hgt, elem_of_decided_keys with local remote, Hsub2.
Qed.

(** A [DeleteRemote] of a proper ancestor of [p] anywhere in the plan was
    yielded before the key [p] was reached. *)
Lemma ancestor_deleted_before before at_p after p d r :
  (∀ a, a ∈ at_p → action_path a = p) →
  (∀ a, a ∈ after → path_lt p (action_path a)) →
  DeleteRemote d r ∈ before ++ at_p ++ after →
  Py.startswith p (d +:+ "/") = true →
  d ∈ deleted_paths before.
Proof.
  intros Hat Hafter Hin Hs.
  apply elem_of_app in Hin as [Hin|Hin];
    [apply elem_of_deleted_paths; eauto|].
  apply elem_of_app in Hin as [Hin|Hin].
  - apply Hat in Hin. simpl in Hin. by apply startswith_slash_ne in Hs.
  - apply Hafter in Hin. simpl in Hin.
    apply startswith_slash_lt in Hs. by apply path_lt_asym in Hs.
Qed.

Lemma actions_at_app p xs ys :
  actions_at p (xs ++ ys) = actions_at p xs ++ actions_at p ys.
Proof. apply List.filter_app. Qed.

Lemma actions_at_none p xs :
  (∀ a, a ∈ xs → action_path a ≠ p) → actions_at p xs = [].
Proof.
  induction xs as [|x xs IH]; intros Hall; simpl; [done|].
  rewrite bool_decide_eq_false_2; [|apply Hall; left].
  apply IH. intros a ?. apply Hall. by right.
Qed.

Lemma actions_at_all p xs :
  (∀ a, a ∈ xs → action_path a = p) → actions_at p xs = xs.
Proof.
  induction xs as [|x xs IH]; intros Hall; simpl; [done|].
  rewrite bool_decide_eq_true_2; [|apply Hall; left].
  f_equal. apply IH. intros a ?. apply Hall. by right.
Qed.

Lemma path_lt_ne a b : path_lt a b → a ≠ b.
Proof. intros Hlt ->. by apply path_lt_irrefl in Hlt. Qed.

(** The actions of the plan at a key are those yielded for that key. *)
Lemma actions_at_key before at_p after p :
  (∀ a, a ∈ before → path_lt (action_path a) p) →
  (∀ a, a ∈ at_p → action_path a = p) →
  (∀ a, a ∈ after → path_lt p (action_path a)) →
  actions_at p (before ++ at_p ++ after) = at_p.
Proof.
  intros Hb Hat Ha. rewrite !actions_at_app.
  rewrite (actions_at_none p before), (actions_at_all p at_p),
    (actions_at_none p after), app_nil_r; [done| |done|].
  - intros a ?%Ha%path_lt_ne. done.
  - intros a ?%Hb%path_lt_ne. done.
Qed.

(** ** Stream assembly *)

(** C2: the nested loops of [sync_actions] are one pass over the decided
    actions in pairing order.  At each decided action [a], the recorded
    list is exactly the paths of the [DeleteRemote] actions emitted so far;
    [a] is dropped, and nothing recorded, exactly when it is a
    [DeleteRemote] whose path starts with [d + "/"] for a recorded [d];
    otherwise [a] is emitted, and its path recorded when it is a
    [DeleteRemote]; [UpdateRemote] and [DoNothing] are always emitted.  And
    when the plan deletes [d], it contains no deletion of a path starting
    with [d + "/"]. *)
Theorem plan_suppresses_under_deleted (local remote : FileTree) :
  sync_actions local remote = (sync_inner [] (decided local remote)).2
  ∧ (∀ pre a post,
       decided local remote = pre ++ a :: post →
       let emitted := (sync_inner [] pre).2 in
       let recorded := deleted_paths emitted in
       (sync_inner [] pre).1 = recorded
       ∧ sync_inner [] (pre ++ [a])
         = if is_DeleteRemote a && has_ancestor_in recorded (action_path a)
           then (recorded, emitted)
           else (if is_DeleteRemote a
                 then recorded ++ [action_path a] else recorded,
                 emitted ++ [a]))
  ∧ (∀ a, a ∈ decided local remote → is_DeleteRemote a = false →
          a ∈ sync_actions local remote)
  ∧ (∀ d p r r',
       DeleteRemote d r ∈ sync_actions local remote →
       Py.startswith p (d +:+ "/") = true →
       DeleteRemote p r' ∉ sync_actions local remote).
Proof.
  split; [apply sync_actions_flat|]. split; [|split].
  - intros pre a post _ emitted recorded.
    pose proof (sync_inner_deleted [] pre) as Hrec. simpl in Hrec.
    split; [done|]. rewrite sync_inner_snoc. subst emitted recorded.
    destruct (sync_inner [] pre) as [d1 o1]. simpl in *. by subst d1.
  - intros a Ha Hkind. rewrite sync_actions_flat.
    by apply sync_inner_keeps.
  - intros d p r r' Hd Hs Hp.
    assert (p ∈ FileTree.all_paths local remote) as Hkey.
    { rewrite sync_actions_flat in Hp. apply sync_inner_elem_of in Hp.
      rewrite decided_keys in Hp. by apply elem_of_decided_keys in Hp. }
    destruct (plan_at_key local remote p Hkey)
      as (before & at_p & after & recorded & Hplan & Hat & Hb & Hpath & Ha & _).
    rewrite Hplan in Hd, Hp.
    pose proof (ancestor_deleted_before _ _ _ _ _ _ Hpath Ha Hd Hs) as Hrec.
    apply elem_of_app in Hp as [Hp|Hp].
    { apply Hb in Hp. by apply path_lt_irrefl in Hp. }
    apply elem_of_app in Hp as [Hp|Hp].
    + rewrite Hat in Hp. revert Hp. apply sync_inner_suppressed.
      apply has_ancestor_in_true. eauto.
    + apply Ha in Hp. by apply path_lt_irrefl in Hp.
Qed.

(** ** Files on one side only *)

Lemma only_in_key_l local remote p :
  only_in local remote p → p ∈ FileTree.all_paths local remote.
Proof. intros [? _]. apply elem_of_all_paths. by left. Qed.

Lemma only_in_key_r local remote p :
  only_in remote local p → p ∈ FileTree.all_paths local remote.
Proof. intros [? _]. apply elem_of_all_paths. by right. Qed.

Lemma only_in_find one other p :
  only_in one other p → ∃ e, FileTree.find one p = Some e ∧ path e = p.
Proof.
  intros [(e & He & <- & _) _].
  destruct (find_is_Some one e He) as [e' He'].
  exists e'. split; [done|]. by apply find_Some in He' as [_ ?].
Qed.

(** C4, as the program has it: a file path that only the local tree has
    gets exactly one action, an [UpdateRemote]; a file path that only the
    remote tree has gets exactly one action, a [DeleteRemote], unless the
    plan deletes a path [d] such that the file path starts with [d + "/"],
    in which case it gets none. *)
Theorem one_sided_file_actions (local remote : FileTree) (p : string) :
  (only_in local remote p →
     actions_at p (sync_actions local remote)
     = [UpdateRemote p "File doesn't exist in remote"])
  ∧ (only_in remote local p →
     actions_at p (sync_actions local remote)
     = if has_ancestor_in (deleted_paths (sync_actions local remote)) p
       then []
       else [DeleteRemote p "File doesn't exist locally"]).
Proof.
  split; intros Honly.
  - destruct (plan_at_key local remote p (only_in_key_l _ _ _ Honly))
      as (before & at_p & after & recorded & Hplan & Hat & Hb & Hpath & Ha & _).
    rewrite Hplan, actions_at_key by done. rewrite Hat. unfold acts_of.
    destruct (only_in_find _ _ _ Honly) as (e & -> & <-).
    destruct Honly as [_ ->]. done.
  - destruct (plan_at_key local remote p (only_in_key_r _ _ _ Honly))
      as (before & at_p & after & recorded & Hplan & Hat & Hb & Hpath & Ha & _).
    rewrite Hplan, actions_at_key by done.
    assert (has_ancestor_in (deleted_paths (before ++ at_p ++ after)) p
            = has_ancestor_in (deleted_paths before) p) as ->.
    { apply eq_true_iff_eq. rewrite !has_ancestor_in_true. split.
      - intros (d & [r Hd]%elem_of_deleted_paths & Hs). exists d.
        split; [|done]. by eapply ancestor_deleted_before.
      - intros (d & Hd & Hs). exists d. split; [|done].
        rewrite deleted_paths_app. apply elem_of_app. by left. }
    rewrite Hat. unfold acts_of.
    destruct (only_in_find _ _ _ Honly) as (e & -> & <-).
    destruct Honly as [_ ->]. simpl. rewrite under_deleted_spec.
    by destruct (has_ancestor_in _ _).
Qed.

Lemma only_in_intro one other e :
  e ∈ one → is_directory e = false → FileTree.find other (path e) = None →
  only_in one other (path e).
Proof. intros ???. split; [by exists e|done]. Qed.

(** C4, as stated, fails: the local tree has the file [blog], the remote
    tree has the directory [blog] and the file [blog/post.html].  The path
    [blog/post.html] is a file path of the remote tree only, and the plan
    has no action for it: its deletion is implied by the deletion of
    [blog]. *)
Lemma one_sided_file_without_action :
  only_in Examples.blog_remote Examples.blog_local "blog/post.html"
  ∧ sync_actions Examples.blog_local Examples.blog_remote
    = [DeleteRemote "blog" "Path is a directory in remote";
       UpdateRemote "blog" "Path is a directory in remote"]
  ∧ actions_at "blog/post.html"
      (sync_actions Examples.blog_local Examples.blog_remote) = [].
Proof.
  split; [|split; reflexivity].
  apply (only_in_intro Examples.blog_remote Examples.blog_local
           (Examples.File "blog/post.html" 16793
              "41fe08fc0dd44e79f799d03ece903e62be25dc7d"));
    [|reflexivity..].
  apply elem_of_cons. right. apply elem_of_cons. by left.
Qed.

(** The remote-only file [old.html] of the example site gets its one
    [DeleteRemote]. *)
Lemma one_sided_file_actions_witness :
  only_in Examples.site_remote Examples.site_local "old.html"
  ∧ actions_at "old.html"
      (sync_actions Examples.site_local Examples.site_remote)
    = [DeleteRemote "old.html" "File doesn't exist locally"].
Proof.
  assert (only_in Examples.site_remote Examples.site_local "old.html") as Honly.
  { apply (only_in_intro Examples.site_remote Examples.site_local
             (Examples.File "old.html" 333
                "63793f46c4d966f710974a0219e05641b0e49e42"));
      [|reflexivity..].
    apply elem_of_cons. right. apply elem_of_cons. right.
    apply elem_of_cons. by left. }
  split; [exact Honly|].
  exact (proj2 (one_sided_file_actions
                  Examples.site_local Examples.site_remote "old.html") Honly).
Defined.

(** ** Identical trees *)

(** C6: planning a tree against itself yields only [DoNothing] actions. *)
Theorem plan_of_identical_trees (tree : FileTree) :
  Forall (λ a, is_DoNothing a = true) (sync_actions tree tree).
Proof.
  apply Forall_forall. intros a Ha.
  rewrite sync_actions_flat in Ha. apply sync_inner_elem_of in Ha.
  rewrite decided_keys in Ha. apply list_elem_of_join in Ha as (acts & Ha & Hacts).
  apply list_elem_of_fmap in Hacts as (k & -> & _).
  unfold acts_of, _choose_action_for_pair in Ha.
  destruct (FileTree.find tree k) as [e|]; [|by apply elem_of_nil in Ha].
  destruct (is_directory e); simpl in Ha; [by apply elem_of_nil in Ha|].
  rewrite !bool_decide_eq_true_2 in Ha by done. simpl in Ha.
  by apply list_elem_of_singleton in Ha as ->.
Qed.

(** ** Reachable branches *)

(** C8: when no two entries of a tree share a path, every pair of the
    pairing has a present component and a component that is a file; so the
    absent/absent row and the directory/directory row of the decision never
    apply to a pair of the pairing, some row always applies, and the
    decision yields one or two actions. *)
Theorem zip_pairs_have_a_file (local remote : FileTree)
    (Hlocal : NoDup (path <$> local)) (Hremote : NoDup (path <$> remote)) :
  ∀ l r, (l, r) ∈ FileTree.zip local remote →
    (is_Some l ∨ is_Some r)
    ∧ (∃ e, (l = Some e ∨ r = Some e) ∧ is_directory e = false)
    ∧ DecisionTable.absent l && DecisionTable.absent r = false
    ∧ DecisionTable.dir l && DecisionTable.dir r = false
    ∧ DecisionTable.decide l r = Some (_choose_action_for_pair l r)
    ∧ (1 ≤ length (_choose_action_for_pair l r) ≤ 2)%nat.
Proof.
  intros l r (p & [= -> ->] & Hp)%list_elem_of_fmap.
  assert (∃ e, (FileTree.find local p = Some e
                ∨ FileTree.find remote p = Some e)
               ∧ is_directory e = false) as (e & He & Hfile).
  { apply elem_of_all_paths in Hp as [(e & He & <- & Hd)|(e & He & <- & Hd)];
      exists e; (split; [|done]); [left|right]; by apply find_NoDup. }
  split; [destruct He as [-> | ->]; eauto|]. split; [by exists e|].
  split; [|split; [|split; [apply choose_action_follows_table|]]].
  - destruct He as [-> | ->]; simpl; [done|apply andb_false_r].
  - destruct He as [-> | ->]; simpl; rewrite Hfile;
      [done|apply andb_false_r].
  - unfold _choose_action_for_pair.
    destruct (FileTree.find local p) as [el|], (FileTree.find remote p) as [er|];
      simpl; [|lia|lia|by destruct He].
    destruct He as [[= ->] | [= ->]]; rewrite Hfile; simpl.
    + destruct (is_directory er); simpl; [lia|].
      repeat case_match; simpl; lia.
    + destruct (is_directory el); simpl; [lia|].
      repeat case_match; simpl; lia.
Qed.

(** The trees of the [blog] example have unique paths. *)
Lemma zip_pairs_have_a_file_witness :
  NoDup (path <$> Examples.blog_local)
  ∧ NoDup (path <$> Examples.blog_remote)
  ∧ ∀ l r, (l, r) ∈ FileTree.zip Examples.blog_local Examples.blog_remote →
      (is_Some l ∨ is_Some r)
      ∧ (∃ e, (l = Some e ∨ r = Some e) ∧ is_directory e = false)
      ∧ DecisionTable.absent l && DecisionTable.absent r = false
      ∧ DecisionTable.dir l && DecisionTable.dir r = false
      ∧ DecisionTable.decide l r = Some (_choose_action_for_pair l r)
      ∧ (1 ≤ length (_choose_action_for_pair l r) ≤ 2)%nat.
Proof.
  assert (NoDup (path <$> Examples.blog_local)) as Hl.
  { apply (bool_decide_unpack _). vm_compute. exact I. }
  assert (NoDup (path <$> Examples.blog_remote)) as Hr.
  { apply (bool_decide_unpack _). vm_compute. exact I. }
  split; [exact Hl|]. split; [exact Hr|].
  exact (zip_pairs_have_a_file Examples.blog_local Examples.blog_remote Hl Hr).
Defined.

(** ** The ignore filter *)

Lemma filter_filter_and {A} (f g : A → bool) (l : list A) :
  List.filter g (List.filter f l) = List.filter (λ x, f x && g x) l.
Proof.
  induction l as [|x l IH]; simpl; [done|].
  destruct (f x); simpl; [|done]. destruct (g x); by rewrite IH.
Qed.

Lemma filter_ext_in {A} (f g : A → bool) (l : list A) :
  (∀ x, x ∈ l → f x = g x) → List.filter f l = List.filter g l.
Proof.
  induction l as [|x l IH]; intros Hfg; simpl; [done|].
  rewrite (Hfg x) by left. rewrite IH; [done|].
  intros y ?. apply Hfg. by right.
Qed.

Lemma filter_when {A} (b : bool) (f : A → bool) (l : list A) :
  (if negb b then List.filter f l else l) = List.filter (λ x, b || f x) l.
Proof.
  destruct b; simpl; [|done]. induction l as [|x l IH]; simpl; congruence.
Qed.

Lemma existsb_negb_forallb {A} (f : A → bool) (l : list A) :
  negb (existsb f l) = forallb (λ x, negb (f x)) l.
Proof.
  induction l as [|x l IH]; simpl; [done|]. by rewrite negb_orb, IH.
Qed.

Lemma vcs_files_elem name :
  name ∈ IgnoreFiles.vcs_files ↔ name ∈ [".git"; ".hg"; ".svn"; ".bzr"].
Proof. unfold IgnoreFiles.vcs_files. by rewrite elem_of_list_to_set. Qed.

Section ignore_filter.
Context `{PathSpecLib PathSpec}.

(** [relpath], and so [match], raises on the empty path only. *)
Lemma relpath_is_Some cwd file start :
  file ≠ "" → is_Some (posixpath.relpath cwd file start).
Proof.
  intros Hne. unfold posixpath.relpath.
  rewrite bool_decide_eq_false_2 by done. by case_match.
Qed.

Lemma match_loop_is_Some cwd l file :
  file ≠ "" → is_Some (TreePathSpec.match_loop cwd l file).
Proof.
  intros Hne. induction l as [|[root spec] l IH]; simpl; [done|].
  destruct (relpath_is_Some cwd file root Hne) as [rel ->]. simpl.
  repeat case_match; done.
Qed.

Lemma filter_raising_total (tree : FileTree)
    (condition : FileTreeEntry → option bool) :
  (∀ e, e ∈ tree → is_Some (condition e)) →
  IgnoreFiles.filter_raising tree condition
  = Some (List.filter (λ e, bool_decide (condition e = Some true)) tree).
Proof.
  induction tree as [|e tree IH]; intros Hall; simpl; [done|].
  destruct (Hall e) as [b Hb]; [left|]. rewrite Hb. simpl.
  rewrite IH by (intros e' ?; apply Hall; by right). simpl.
  by destruct b.
Qed.

Lemma elem_of_allowed_set config ext :
  ext ∈ IgnoreFiles.allowed_set config
  ↔ existsb (λ item, String.eqb ext ("." +:+ Py.upper (Py.lstrip "." item)))
      (Policy.allow_list config) = true.
Proof.
  unfold IgnoreFiles.allowed_set, Policy.allow_list.
  rewrite elem_of_list_to_set, list_elem_of_fmap, existsb_exists.
  setoid_rewrite String.eqb_eq. setoid_rewrite list_elem_of_In.
  destruct (cfg_allowed_extensions config); split;
    intros (item & ? & ?); by exists item.
Qed.

(** The five steps of [filter] are one filter by the conjunction of the
    five conditions, as soon as [match] does not raise. *)
Lemma filter_as_conjunction cwd (self : IgnoreFiles.t) (tree : FileTree) :
  (∀ e, e ∈ tree → path e ≠ "") →
  IgnoreFiles.filter cwd self tree
  = Some (List.filter (Policy.keeps cwd self) tree).
Proof.
  intros Hpaths. unfold IgnoreFiles.filter, FileTree.filter, FileTree in *.
  cbv zeta. rewrite filter_when, filter_filter_and.
  rewrite filter_raising_total.
  2:{ intros e [He _]%list_elem_of_In%filter_In.
      destruct (match_loop_is_Some cwd
                  (pathspec_list (IgnoreFiles.pathspec self)) (path e))
        as [b Hb]; [by apply Hpaths, list_elem_of_In|].
      unfold TreePathSpec.match_. by rewrite Hb. }
  simpl. rewrite !filter_when, !filter_filter_and. f_equal.
  apply filter_ext_in. intros e He. unfold Policy.keeps.
  rewrite !andb_assoc. f_equal; [f_equal; [f_equal; [f_equal|]|]|].
  - unfold Policy.not_ignore_file. f_equal.
    apply eq_true_iff_eq. by rewrite bool_decide_eq_true, String.eqb_eq.
  - unfold Policy.allowed. rewrite <-orb_assoc. f_equal. f_equal.
    apply eq_true_iff_eq. by rewrite bool_decide_eq_true, elem_of_allowed_set.
  - unfold Policy.not_matched, TreePathSpec.match_.
    destruct (TreePathSpec.match_loop cwd _ (path e)) as [[]|]; done.
  - unfold Policy.not_hidden, utils.path_match_any_element.
    by rewrite existsb_negb_forallb.
  - unfold Policy.not_vcs, utils.path_match_any_element.
    rewrite existsb_negb_forallb. f_equal.
    induction (Py.split "/" (path e)) as [|seg segs IH]; simpl; [done|].
    rewrite IH. f_equal. f_equal. apply bool_decide_ext, vcs_files_elem.
Qed.

End ignore_filter.

(** ** File extensions of dot files *)

Lemma rfind_ge c s : -1 ≤ Py.rfind c s.
Proof.
  induction s as [|a s IH]; simpl; [lia|].
  destruct (Z.leb_spec 0 (Py.rfind c s)); [lia|]. case_decide; lia.
Qed.

(** In a path whose basename is a dot followed by no other dot, the last
    dot is the character right after the last separator. *)
Lemma rfind_dotfile p :
  dotfile_name (posixpath.basename p) →
  Py.rfind "." p = Py.rfind "/" p + 1.
Proof.
  intros (rest & Hbase & Hrest). unfold posixpath.basename in Hbase.
  induction p as [|a p IH]; simpl in *; [done|].
  pose proof (rfind_ge "/" p) as Hge.
  destruct (Z.leb_spec 0 (Py.rfind "/" p)) as [Hsep|Hsep].
  - replace (Z.to_nat (Py.rfind "/" p + 1 + 1))
      with (S (Z.to_nat (Py.rfind "/" p + 1))) in Hbase by lia.
    simpl in Hbase. rewrite (IH Hbase).
    destruct (Z.leb_spec 0 (Py.rfind "/" p + 1)); lia.
  - assert (Py.rfind "/" p = -1) as Hnone by lia.
    rewrite Hnone in *. clear IH. case_decide as Ha.
    + simpl in Hbase. subst p. simpl. rewrite Hrest. by simpl.
    + simpl in Hbase. injection Hbase as -> ->. rewrite Hrest. by simpl.
Qed.

Lemma file_extension_dotfile p :
  dotfile_name (posixpath.basename p) → utils.file_extension p = "".
Proof.
  intros Hp%rfind_dotfile. unfold utils.file_extension, posixpath.splitext.
  rewrite Hp. replace (Py.rfind "/" p + 1 - (Py.rfind "/" p + 1)) with 0 by lia.
  simpl. by rewrite andb_false_r.
Qed.

Section dotfiles.
Context `{PathSpecLib PathSpec}.

(** The empty extension is in no allow-list. *)
Lemma no_extension_not_allowed config e :
  Py.truthy (sync_disallowed config) = false →
  is_directory e = false →
  extension e = "" →
  Policy.allowed config e = false.
Proof.
  unfold Policy.allowed. intros -> -> Hext. simpl.
  apply not_true_is_false. intros (item & _ & Hitem)%existsb_exists.
  unfold Policy.same_extension in Hitem. rewrite Hext in Hitem.
  by apply String.eqb_eq in Hitem.
Qed.

End dotfiles.


(** C10: a path whose basename is a dot followed by no other dot has the
    empty extension; and when sync-disallowed is not on, a non-directory
    entry with such a path fails the extension step and is not in the
    filter's output, whatever the other settings are. *)
Theorem dotfile_is_dropped `{PathSpecLib PathSpec}
    (cwd : string) (self : IgnoreFiles.t) (tree : FileTree)
    (e : FileTreeEntry)
    (Hname : dotfile_name (posixpath.basename (path e)))
    (Hfile : is_directory e = false)
    (Hpolicy : Py.truthy (sync_disallowed (IgnoreFiles.config self)) = false)
    (Hpaths : ∀ e', e' ∈ tree → path e' ≠ "") :
  utils.file_extension (path e) = ""
  ∧ Policy.allowed (IgnoreFiles.config self) e = false
  ∧ ∃ out, IgnoreFiles.filter cwd self tree = Some out ∧ e ∉ out.
Proof.
  pose proof (file_extension_dotfile _ Hname) as Hext.
  pose proof (no_extension_not_allowed _ e Hpolicy Hfile Hext) as Hallowed.
  split; [done|]. split; [done|].
  exists (List.filter (Policy.keeps cwd self) tree).
  split; [by apply filter_as_conjunction|].
  intros [_ Hkeep]%list_elem_of_In%filter_In. unfold Policy.keeps in Hkeep.
  rewrite Hallowed, andb_false_r in Hkeep. done.
Qed.

(** No entry of the example site has the empty path. *)
Lemma ignore_example_paths :
  ∀ e, e ∈ IgnoreExamples.tree → path e ≠ "".
Proof.
  apply Forall_forall. apply (bool_decide_unpack _). vm_compute. exact I.
Defined.


(** [.bashrc] is dropped from the example site although hidden files are
    synced. *)
Lemma dotfile_is_dropped_witness :
  dotfile_name (posixpath.basename ".bashrc")
  ∧ Py.truthy (sync_disallowed (IgnoreExamples.config false true)) = false
  ∧ Py.truthy (sync_hidden (IgnoreExamples.config false true)) = true
  ∧ utils.file_extension ".bashrc" = ""
  ∧ Policy.allowed (IgnoreExamples.config false true)
      (Examples.File ".bashrc" 12 "77f0") = false
  ∧ ∃ out,
      IgnoreFiles.filter IgnoreExamples.cwd
        (IgnoreExamples.ignore false true) IgnoreExamples.tree = Some out
      ∧ Examples.File ".bashrc" 12 "77f0" ∉ out.
Proof.
  assert (dotfile_name (posixpath.basename ".bashrc")) as Hname.
  { exists "bashrc". split; reflexivity. }
  split; [exact Hname|]. split; [reflexivity|]. split; [reflexivity|].
  exact (dotfile_is_dropped IgnoreExamples.cwd
           (IgnoreExamples.ignore false true) IgnoreExamples.tree
           (Examples.File ".bashrc" 12 "77f0")
           Hname eq_refl eq_refl ignore_example_paths).
Defined.

(** ** Layered ignore matching *)

Section layered_match.
Context `{PathSpecLib PathSpec}.

(** [match] is true exactly when some scope that contains the file
    matches it: the order of the scopes plays no part, and a scope that
    does not match, negation or not, leaves the verdict to the others. *)
Lemma match_loop_true_iff cwd (l : list (string * PathSpec)) file :
  TreePathSpec.match_loop cwd l file = Some true
  ↔ file ≠ ""
    ∧ ∃ root spec rel,
        (root, spec) ∈ l
        ∧ posixpath.relpath cwd file root = Some rel
        ∧ Py.startswith rel "../" = false
        ∧ match_file spec (_add_slash rel) = true.
Proof.
  destruct (decide (file = "")) as [->|Hne].
  { split; [|by intros [? _]]. destruct l as [|[root spec] l]; done. }
  induction l as [|[root spec] l IH]; simpl.
  - split; [done|]. by intros (_ & ? & ? & ? & ?%elem_of_nil & _).
  - destruct (relpath_is_Some cwd file root Hne) as [rel Hrel].
    rewrite Hrel. simpl.
    destruct (Py.startswith rel "../") eqn:Hout; simpl;
      [|destruct (match_file spec (_add_slash rel)) eqn:Hm].
    + rewrite IH. split.
      * intros (_ & r & s & x & Hin & ?). split; [done|].
        exists r, s, x. split; [by right|done].
      * intros (_ & r & s & x & [[= -> ->]|Hin]%elem_of_cons & Hr & Hs & Hx).
        -- congruence.
        -- split; [done|]. by exists r, s, x.
    + split; [intros _|done]. split; [done|].
      exists root, spec, rel. split; [left|done].
    + rewrite IH. split.
      * intros (_ & r & s & x & Hin & ?). split; [done|].
        exists r, s, x. split; [by right|done].
      * intros (_ & r & s & x & [[= -> ->]|Hin]%elem_of_cons & Hr & Hs & Hx).
        -- congruence.
        -- split; [done|]. by exists r, s, x.
Qed.

End layered_match.

(** C3 fails on the program: with [*.log] in the root ignore file and
    [!important.log] in the ignore file of [keep/], the scopes loaded are
    [/keep] then [/]; the matcher of [keep/] does not match
    [important.log], so the loop goes on to the root scope, whose [*.log]
    matches: [match] is true for [keep/important.log], as it is for
    [other/debug.log], and the filter drops both. *)
Theorem nested_negation_does_not_unignore :
  let spec :=
    IgnoreFiles.pathspec (IgnoreExamples.ignore true true) in
  pathspec_list spec
    = [("/keep", [IgnoreExamples.line "!important.log"]);
       ("/", [IgnoreExamples.line "*.log"])]
  ∧ match_file [IgnoreExamples.line "!important.log"] "/important.log" = false
  ∧ TreePathSpec.match_ IgnoreExamples.cwd spec "keep/important.log" = Some true
  ∧ TreePathSpec.match_ IgnoreExamples.cwd spec "other/debug.log" = Some true
  ∧ TreePathSpec.match_ IgnoreExamples.cwd spec "/keep/important.log" = Some true
  ∧ TreePathSpec.match_ IgnoreExamples.cwd spec "/other/debug.log" = Some true
  ∧ IgnoreFiles.filter IgnoreExamples.cwd (IgnoreExamples.ignore true true)
      IgnoreExamples.tree
    = Some [Examples.File "index.html" 1023 "c8aa";
            Examples.File ".bashrc" 12 "77f0";
            Examples.Directory "keep"; Examples.Directory "other"].
Proof. vm_compute. repeat split; reflexivity. Qed.

(** * Further properties of the program *)

(** ** Lookup and counting in a tree *)

(** X1: [find] returns [None] exactly when no entry has the path; when it
    returns an entry, that entry is the first one of the tree with the
    path. *)
Theorem find_first_with_path (self : FileTree) (p : string) :
  (FileTree.find self p = None ↔ p ∉ path <$> self)
  ∧ ∀ e, FileTree.find self p = Some e
         ↔ ∃ before after,
             self = before ++ e :: after ∧ path e = p
             ∧ p ∉ path <$> before.
Proof.
  split.
  - rewrite find_None, list_elem_of_fmap. split.
    + intros Hall (e & -> & He). by apply (Hall e).
    + intros Hnot e He Hp. apply Hnot. by exists e.
  - induction self as [|file rest IH]; intros e; simpl.
    + split; [done|]. intros (before & after & Heq & _).
      by destruct before.
    + case_bool_decide as Hp.
      * split.
        -- intros [= <-]. exists [], rest. split; [done|].
           split; [done|]. by intros ?%elem_of_nil.
        -- intros ([|b before] & after & Heq & _ & Hnot).
           ++ by injection Heq as ->.
           ++ injection Heq as -> _. destruct Hnot. rewrite fmap_cons, Hp.
              left.
      * rewrite IH. split.
        -- intros (before & after & -> & ? & Hnot).
           exists (file :: before), after. split; [done|]. split; [done|].
           rewrite fmap_cons. by intros [?|?]%elem_of_cons.
        -- intros ([|b before] & after & Heq & Hpe & Hnot).
           ++ injection Heq as -> _. done.
           ++ injection Heq as -> ->. exists before, after.
              split; [done|]. split; [done|]. intros ?. apply Hnot.
              rewrite fmap_cons. by right.
Qed.

Lemma filter_length_le {A} (f : A → bool) (l : list A) :
  (length (List.filter f l) ≤ length l)%nat.
Proof.
  induction l as [|x l IH]; simpl; [lia|]. destruct (f x); simpl; lia.
Qed.

Lemma filter_swap {A} (f g : A → bool) (l : list A) :
  List.filter f (List.filter g l) = List.filter g (List.filter f l).
Proof.
  induction l as [|x l IH]; simpl; [done|].
  destruct (f x) eqn:Hf, (g x) eqn:Hg; simpl; rewrite ?Hf, ?Hg, IH; done.
Qed.

(** X2: every entry is counted once, as a file or as a directory; and
    [filter] never raises either count. *)
Theorem counts_partition_the_tree (self : FileTree)
    (condition : FileTreeEntry → bool) :
  (FileTree.number_of_files self + FileTree.number_of_directories self
   = length self)%nat
  ∧ (FileTree.number_of_files (FileTree.filter self condition)
     ≤ FileTree.number_of_files self)%nat
  ∧ (FileTree.number_of_directories (FileTree.filter self condition)
     ≤ FileTree.number_of_directories self)%nat.
Proof.
  unfold FileTree.number_of_files, FileTree.number_of_directories,
    FileTree.filter.
  split; [|split].
  - induction self as [|e self IH]; simpl; [done|].
    destruct (is_directory e); simpl; lia.
  - rewrite filter_swap. apply filter_length_le.
  - rewrite filter_swap. apply filter_length_le.
Qed.

(** ** [_add_slash] *)

(** X3: the result of [_add_slash] starts with a slash, and applying it
    again changes nothing. *)
Theorem add_slash_idempotent (p : string) :
  Py.startswith (_add_slash p) "/" = true
  ∧ _add_slash (_add_slash p) = _add_slash p.
Proof.
  assert (Py.startswith (_add_slash p) "/" = true) as Hslash.
  { unfold _add_slash. case_bool_decide as Hdot; [done|].
    destruct (Py.startswith p "./") eqn:Hdotslash.
    - apply startswith_inv in Hdotslash as [u ->]. destruct u; reflexivity.
    - destruct (Py.startswith p "/") eqn:Hs; simpl; [done|].
      destruct p; reflexivity. }
  split; [done|]. unfold _add_slash at 1.
  apply startswith_inv in Hslash as [u ->].
  rewrite bool_decide_eq_false_2 by (destruct u; discriminate).
  destruct u; reflexivity.
Qed.

(** ** Merging configurations *)

(** X4: [_merge_configs] takes each attribute from the second
    configuration when it is set and from the first otherwise; it is
    associative, the empty configuration is neutral on both sides, and a
    configuration merged over the defaults has every yes/no option set. *)
Theorem merge_configs_monoid (a b c : SiteConfig) :
  _merge_configs (_merge_configs a b) c = _merge_configs a (_merge_configs b c)
  ∧ _merge_configs a empty_config = a
  ∧ _merge_configs empty_config a = a
  ∧ (let merged := _merge_configs _default_config a in
     is_Some (sync_disallowed merged) ∧ is_Some (sync_hidden merged)
     ∧ is_Some (sync_vcs merged) ∧ is_Some (remove_empty_dirs merged)
     ∧ cfg_allowed_extensions merged = cfg_allowed_extensions a
     ∧ cfg_root_dir merged = cfg_root_dir a ∧ api_key merged = api_key a).
Proof.
  destruct a as [a1 a2 a3 a4 a5 a6 a7], b as [b1 b2 b3 b4 b5 b6 b7],
    c as [c1 c2 c3 c4 c5 c6 c7].
  unfold _merge_configs, empty_config, _default_config, merge_attr. simpl.
  split; [|split; [|split]].
  - f_equal; by repeat case_match.
  - done.
  - f_equal; by repeat case_match.
  - repeat split; by repeat case_match.
Qed.

(** ** Verbosity *)

Lemma iter_decrease n lvl :
  0 ≤ lvl ≤ 5 →
  Nat.iter n log.decrease_verbosity lvl = Z.min 5 (lvl + Z.of_nat n).
Proof.
  intros Hlvl. induction n as [|n IH]; simpl; [lia|]. rewrite IH.
  unfold log.decrease_verbosity. simpl.
  destruct (Z.ltb_spec (Z.min 5 (lvl + Z.of_nat n)) 5); lia.
Qed.

Lemma iter_increase n lvl :
  0 ≤ lvl ≤ 5 →
  Nat.iter n log.increase_verbosity lvl = Z.max 0 (lvl - Z.of_nat n).
Proof.
  intros Hlvl. induction n as [|n IH]; simpl; [lia|]. rewrite IH.
  unfold log.increase_verbosity. simpl.
  destruct (Z.ltb_spec 0 (Z.max 0 (lvl - Z.of_nat n))); lia.
Qed.

(** X5: from a level between [DEBUG] and [NONE], the quietness [q] of the
    command line moves the level to [level + q] clamped to that range.
    From the initial level, a quietness of four or more silences every
    message, fatal ones included, and any negative quietness shows every
    message. *)
Theorem set_verbosity_clamps (quietness lvl : Z) (Hlvl : 0 ≤ lvl ≤ 5) :
  log.set_verbosity quietness lvl = Z.max 0 (Z.min 5 (lvl + quietness))
  ∧ (4 ≤ quietness →
     ∀ level, level ≠ log.NONE →
       log.logged (log.set_verbosity quietness log.initial_min_level) level
       = false)
  ∧ (quietness < 0 →
     ∀ level,
       log.logged (log.set_verbosity quietness log.initial_min_level) level
       = true).
Proof.
  assert (∀ l, 0 ≤ l ≤ 5 →
    log.set_verbosity quietness l = Z.max 0 (Z.min 5 (l + quietness))) as Hset.
  { intros l Hl. unfold log.set_verbosity.
    destruct (Z.ltb_spec 0 quietness).
    - rewrite iter_decrease by done. lia.
    - destruct (Z.ltb_spec quietness 0).
      + rewrite iter_increase by done. lia.
      + lia. }
  split; [by apply Hset|]. unfold log.logged, log.initial_min_level.
  rewrite Hset by (simpl; lia). split.
  - intros Hq level Hlevel. apply Z.leb_gt. destruct level; simpl; try lia.
    done.
  - intros Hq level. apply Z.leb_le. destruct level; simpl; lia.
Qed.

Lemma set_verbosity_clamps_witness :
  0 ≤ log.initial_min_level ≤ 5
  ∧ log.set_verbosity 4 log.initial_min_level = 5
  ∧ log.logged (log.set_verbosity 4 log.initial_min_level) log.FATAL = false.
Proof.
  assert (0 ≤ log.initial_min_level ≤ 5) as Hlvl by (vm_compute; split; discriminate).
  split; [exact Hlvl|]. split; [reflexivity|].
  exact (proj1 (proj2 (set_verbosity_clamps 4 log.initial_min_level Hlvl))
           ltac:(lia) log.FATAL ltac:(discriminate)).
Defined.

(** ** More on the plan *)

Lemma sync_inner_sublist deleted xs :
  (sync_inner deleted xs).2 `sublist_of` xs.
Proof.
  revert deleted. induction xs as [|x xs IH]; intros deleted; simpl.
  - constructor.
  - destruct (is_DeleteRemote x); [destruct (under_deleted _ _)|].
    + apply sublist_cons, IH.
    + specialize (IH (deleted ++ [action_path x])).
      destruct (sync_inner (deleted ++ _) xs) as [d1 o1]. simpl in *.
      by apply sublist_skip.
    + specialize (IH deleted). destruct (sync_inner deleted xs) as [d1 o1].
      simpl in *. by apply sublist_skip.
Qed.

Lemma sync_inner_no_delete deleted xs :
  Forall (λ a, is_DeleteRemote a = false) xs →
  sync_inner deleted xs = (deleted, xs).
Proof.
  induction 1 as [|x xs Hx _ IH]; simpl; [done|]. by rewrite Hx, IH.
Qed.

Lemma StronglySorted_sublist {A} (R : relation A) l1 l2 :
  l1 `sublist_of` l2 → StronglySorted R l2 → StronglySorted R l1.
Proof.
  induction 1 as [|x l1 l2 Hsub IH|x l1 l2 Hsub IH]; intros Hs; [done|..].
  - apply StronglySorted_cons in Hs as [Hx Hs].
    apply StronglySorted_cons. split; [|by apply IH].
    rewrite Forall_forall in Hx |- *.
    intros y Hy. apply Hx. by eapply sublist_subseteq.
  - apply StronglySorted_cons in Hs as [_ Hs]. by apply IH.
Qed.

Lemma acts_of_remote_empty local k :
  file_path_of local k →
  acts_of local [] k = [UpdateRemote k "File doesn't exist in remote"].
Proof.
  intros (e & He & <- & _). unfold acts_of. simpl.
  destruct (find_is_Some local e He) as [e' He']. rewrite He'.
  apply find_Some in He' as [_ Hp]. simpl. by rewrite Hp.
Qed.

Lemma acts_of_local_empty remote k :
  file_path_of remote k →
  acts_of [] remote k = [DeleteRemote k "File doesn't exist locally"].
Proof.
  intros (e & He & <- & _). unfold acts_of. simpl.
  destruct (find_is_Some remote e He) as [e' He']. rewrite He'.
  apply find_Some in He' as [_ Hp]. simpl. by rewrite Hp.
Qed.

Lemma file_path_of_nil p : ¬ file_path_of [] p.
Proof. by intros (e & ?%elem_of_nil & _). Qed.

(** X6: a first sync and a wipe.  Against an empty remote tree the plan is
    one [UpdateRemote] for each local file path, in ascending order, and
    nothing else; from an empty local tree every action of the plan is a
    [DeleteRemote] of a remote file path, for the reason that the file does
    not exist locally. *)
Theorem plan_against_empty_tree (tree : FileTree) :
  sync_actions tree []
    = (λ p, UpdateRemote p "File doesn't exist in remote")
      <$> FileTree.all_paths tree []
  ∧ (∀ p, p ∈ FileTree.all_paths tree [] ↔ file_path_of tree p)
  ∧ Forall (λ a, a = DeleteRemote (action_path a) "File doesn't exist locally"
                 ∧ file_path_of tree (action_path a))
      (sync_actions [] tree).
Proof.
  split; [|split].
  - rewrite sync_actions_flat, decided_keys.
    assert (mjoin (acts_of tree [] <$> FileTree.all_paths tree [])
            = (λ p, UpdateRemote p "File doesn't exist in remote")
              <$> FileTree.all_paths tree []) as ->.
    { assert (∀ k, k ∈ FileTree.all_paths tree [] → file_path_of tree k)
        as Hkeys.
      { intros k [?|?%file_path_of_nil]%elem_of_all_paths; done. }
      induction (FileTree.all_paths tree []) as [|k ks IH]; simpl; [done|].
      rewrite acts_of_remote_empty by (apply Hkeys; left). simpl.
      f_equal. apply IH. intros k' ?. apply Hkeys. by right. }
    rewrite sync_inner_no_delete; [done|].
    apply Forall_forall. by intros a (k & -> & _)%list_elem_of_fmap.
  - intros p. rewrite elem_of_all_paths. split; [|by left].
    by intros [?|?%file_path_of_nil].
  - apply Forall_forall. intros a Ha.
    rewrite sync_actions_flat in Ha. apply sync_inner_elem_of in Ha.
    rewrite decided_keys in Ha.
    apply list_elem_of_join in Ha as (acts & Ha & Hacts).
    apply list_elem_of_fmap in Hacts as (k & -> & Hk).
    apply elem_of_all_paths in Hk as [?%file_path_of_nil|Hk]; [done|].
    rewrite acts_of_local_empty in Ha by done.
    by apply list_elem_of_singleton in Ha as ->.
Qed.

Lemma decided_keys_sorted local remote ks :
  StronglySorted path_lt ks →
  StronglySorted (λ a b, String.le (action_path a) (action_path b))
    (mjoin (acts_of local remote <$> ks)).
Proof.
  induction 1 as [|k ks Hks IH Hk]; simpl; [constructor|].
  apply StronglySorted_app. split; [|split; [|done]].
  - intros a b Ha Hb. apply acts_of_path in Ha as ->.
    apply elem_of_decided_keys in Hb. rewrite Forall_forall in Hk.
    by apply path_lt_spec, Hk.
  - assert (∀ a, a ∈ acts_of local remote k → action_path a = k) as Hpath
      by (intros a; apply acts_of_path).
    induction (acts_of local remote k) as [|a acts IHa]; [constructor|].
    apply StronglySorted_cons. split.
    + apply Forall_forall.
      intros b Hb. rewrite (Hpath a), (Hpath b); [done|by right|left].
    + apply IHa. intros b ?. apply Hpath. by right.
Qed.

(** X7: the plan comes in ascending order of paths: the path of an action
    is never greater than the path of a later action. *)
Theorem plan_is_sorted_by_path (local remote : FileTree) :
  StronglySorted (λ a b, String.le (action_path a) (action_path b))
    (sync_actions local remote).
Proof.
  rewrite sync_actions_flat.
  eapply StronglySorted_sublist; [apply sync_inner_sublist|].
  rewrite decided_keys. apply decided_keys_sorted, sorted_set_lt.
Qed.

Lemma elem_of_plan local remote a :
  a ∈ sync_actions local remote →
  action_path a ∈ FileTree.all_paths local remote
  ∧ a ∈ acts_of local remote (action_path a).
Proof.
  intros Ha. rewrite sync_actions_flat in Ha. apply sync_inner_elem_of in Ha.
  rewrite decided_keys in Ha.
  apply list_elem_of_join in Ha as (acts & Ha & Hacts).
  apply list_elem_of_fmap in Hacts as (k & -> & Hk).
  by rewrite (acts_of_path _ _ _ _ Ha).
Qed.

(** X8: the plan only touches what exists: a [DeleteRemote] targets a path
    the remote tree has an entry for, an [UpdateRemote] targets a path the
    local tree has an entry for, and every action targets a file path of
    one of the trees. *)
Theorem plan_targets_exist (local remote : FileTree) :
  Forall (λ a,
            (file_path_of local (action_path a)
             ∨ file_path_of remote (action_path a))
            ∧ (is_DeleteRemote a = true →
               is_Some (FileTree.find remote (action_path a)))
            ∧ (is_UpdateRemote a = true →
               is_Some (FileTree.find local (action_path a))))
    (sync_actions local remote).
Proof.
  apply Forall_forall. intros a [Hkey Ha]%elem_of_plan.
  split; [by apply elem_of_all_paths|].
  unfold acts_of, _choose_action_for_pair in Ha.
  destruct (FileTree.find local (action_path a)) as [l|],
    (FileTree.find remote (action_path a)) as [r|]; split; intros Hkind;
    try done.
  - apply list_elem_of_singleton in Ha. by rewrite Ha in Hkind.
  - apply list_elem_of_singleton in Ha. by rewrite Ha in Hkind.
  - by apply elem_of_nil in Ha.
  - by apply elem_of_nil in Ha.
Qed.

(** X9: when no two local entries share a path, every [UpdateRemote]
    targets a path that is a file in the local tree, never a directory: the
    upload can read it. *)
Theorem plan_uploads_local_files (local remote : FileTree)
    (Hlocal : NoDup (path <$> local)) :
  Forall (λ a, is_UpdateRemote a = true →
               ∃ e, FileTree.find local (action_path a) = Some e
                    ∧ is_directory e = false)
    (sync_actions local remote).
Proof.
  apply Forall_forall. intros a [Hkey Ha]%elem_of_plan Hkind.
  unfold acts_of, _choose_action_for_pair in Ha.
  destruct (FileTree.find local (action_path a)) as [l|] eqn:Hl,
    (FileTree.find remote (action_path a)) as [r|] eqn:Hr.
  - exists l. split; [done|].
    destruct (is_directory l); [|done]. simpl in Ha.
    destruct (is_directory r); simpl in Ha.
    + by apply elem_of_nil in Ha.
    + apply list_elem_of_singleton in Ha. by rewrite Ha in Hkind.
  - apply elem_of_all_paths in Hkey as [(e & He & Hp & Hd)|(e & He & Hp & _)].
    + rewrite <-Hp, find_NoDup in Hl by done. injection Hl as <-. by exists e.
    + rewrite find_None in Hr. by destruct (Hr e He).
  - apply list_elem_of_singleton in Ha. by rewrite Ha in Hkind.
  - by apply elem_of_nil in Ha.
Qed.

Lemma plan_uploads_local_files_witness :
  NoDup (path <$> Doctests.local)
  ∧ Forall (λ a, is_UpdateRemote a = true →
                 ∃ e, FileTree.find Doctests.local (action_path a) = Some e
                      ∧ is_directory e = false)
      (sync_actions Doctests.local Doctests.remote).
Proof.
  assert (NoDup (path <$> Doctests.local)) as Hl.
  { apply (bool_decide_unpack _). vm_compute. exact I. }
  split; [exact Hl|].
  exact (plan_uploads_local_files Doctests.local Doctests.remote Hl).
Defined.

(** X10: the plan says [DoNothing] for a path exactly when both trees
    resolve it to a file and the two files have the same size and the same
    hash. *)
Theorem do_nothing_iff_identical (local remote : FileTree) (p r : string) :
  DoNothing p r ∈ sync_actions local remote
  ↔ r = "No action needed"
    ∧ ∃ l m, FileTree.find local p = Some l ∧ FileTree.find remote p = Some m
             ∧ is_directory l = false ∧ is_directory m = false
             ∧ size l = size m ∧ sha1_hash l = sha1_hash m.
Proof.
  split.
  - intros [_ Ha]%elem_of_plan. simpl in Ha.
    unfold acts_of, _choose_action_for_pair in Ha.
    destruct (FileTree.find local p) as [l|] eqn:Hl,
      (FileTree.find remote p) as [m|] eqn:Hm;
      try (by apply list_elem_of_singleton in Ha); [|by apply elem_of_nil in Ha].
    destruct (is_directory l) eqn:Hdl, (is_directory m) eqn:Hdm; simpl in Ha;
      try (by apply elem_of_nil in Ha);
      try (by apply list_elem_of_singleton in Ha).
    + apply elem_of_cons in Ha as [?|Ha]; [done|].
      by apply list_elem_of_singleton in Ha.
    + case_bool_decide as Hs; simpl in Ha;
        [|by apply list_elem_of_singleton in Ha].
      case_bool_decide as Hh; simpl in Ha;
        [|by apply list_elem_of_singleton in Ha].
      apply list_elem_of_singleton in Ha. injection Ha as _ ->.
      split; [done|]. by exists l, m.
  - intros (-> & l & m & Hl & Hm & Hdl & Hdm & Hs & Hh).
    rewrite sync_actions_flat. apply sync_inner_keeps; [|done].
    rewrite decided_keys. apply list_elem_of_join.
    exists (acts_of local remote p). split.
    + unfold acts_of, _choose_action_for_pair. rewrite Hl, Hm, Hdl, Hdm.
      simpl. rewrite !bool_decide_eq_true_2 by done. simpl.
      apply find_Some in Hl as [_ ->]. left.
    + apply list_elem_of_fmap_2, elem_of_all_paths. left.
      apply find_Some in Hl as [? ?]. by exists l.
Qed.

Lemma sublist_same_length {A} (l1 l2 : list A) :
  l1 `sublist_of` l2 → length l1 = length l2 → l1 = l2.
Proof.
  induction 1 as [|x l1 l2 Hsub IH|x l1 l2 Hsub IH]; simpl; intros Hlen.
  - done.
  - f_equal. apply IH. lia.
  - apply sublist_length in Hsub. lia.
Qed.

Lemma acts_of_length local remote k :
  (length (acts_of local remote k) ≤ 2)%nat
  ∧ (length (acts_of local remote k) = 2%nat →
     acts_of local remote k
     = [DeleteRemote k "Path is a directory in remote";
        UpdateRemote k "Path is a directory in remote"]).
Proof.
  unfold acts_of, _choose_action_for_pair.
  destruct (FileTree.find local k) as [l|] eqn:Hl,
    (FileTree.find remote k) as [r|]; simpl; try (split; [lia|done]).
  apply find_Some in Hl as [_ <-].
  destruct (is_directory l), (is_directory r); simpl;
    try (split; [lia|done]).
  repeat case_match; simpl; (split; [lia|done]).
Qed.

(** X11: for every path the plan has at most two actions, and when it has
    two they are the [DeleteRemote] and then the [UpdateRemote] of a local
    file that is a directory in the remote tree; a path that is not a file
    path of either tree has none. *)
Theorem at_most_two_actions_per_path (local remote : FileTree) (p : string) :
  (length (actions_at p (sync_actions local remote)) ≤ 2)%nat
  ∧ (length (actions_at p (sync_actions local remote)) = 2%nat →
     actions_at p (sync_actions local remote)
     = [DeleteRemote p "Path is a directory in remote";
        UpdateRemote p "Path is a directory in remote"])
  ∧ (¬ (file_path_of local p ∨ file_path_of remote p) →
     actions_at p (sync_actions local remote) = []).
Proof.
  destruct (decide (p ∈ FileTree.all_paths local remote)) as [Hkey|Hkey].
  - destruct (plan_at_key local remote p Hkey)
      as (before & at_p & after & recorded & Hplan & Hat & Hb & Hpath & Ha & _).
    rewrite Hplan, actions_at_key by done.
    pose proof (sync_inner_sublist (deleted_paths before)
                  (acts_of local remote p)) as Hsub.
    rewrite <-Hat in Hsub. pose proof (sublist_length _ _ Hsub) as Hlen.
    destruct (acts_of_length local remote p) as [Hle Htwo].
    split; [lia|]. split.
    + intros Hlen2. rewrite <-Htwo by lia. apply sublist_same_length; [done|].
      lia.
    + intros Hnot. destruct Hnot. by apply elem_of_all_paths.
  - assert (actions_at p (sync_actions local remote) = []) as ->.
    { apply actions_at_none. intros a [Ha _]%elem_of_plan Hp.
      by rewrite Hp in Ha. }
    simpl. split; [lia|]. split; [lia|done].
Qed.

(** ** Loading and matching pathspecs *)

Section pathspec_loading.
Context `{PathSpecLib PathSpec}.

Lemma insert_desc_perm (x : string * PathSpec) l :
  TreePathSpec.insert_desc x l ≡ₚ x :: l.
Proof.
  induction l as [|y l IH]; simpl; [done|].
  destruct (String.ltb x.1 y.1); [|done].
  by rewrite IH, Permutation_swap.
Qed.

Lemma sort_desc_perm (l : list (string * PathSpec)) :
  TreePathSpec.sort_desc l ≡ₚ l.
Proof.
  induction l as [|x l IH]; simpl; [done|].
  by rewrite insert_desc_perm, IH.
Qed.

Lemma ltb_false_le a b : String.ltb a b = false → String.le b a.
Proof.
  intros Hlt. destruct (total String.le b a) as [?|Hab]; [done|].
  destruct (decide (a = b)) as [->|Hne]; [done|].
  assert (path_lt a b) as Hp by (by apply path_lt_spec).
  unfold path_lt in Hp. congruence.
Qed.

Lemma insert_desc_sorted (x : string * PathSpec) l :
  StronglySorted (λ a b, String.le b.1 a.1) l →
  StronglySorted (λ a b, String.le b.1 a.1) (TreePathSpec.insert_desc x l).
Proof.
  induction 1 as [|y l Hl IH Hy]; simpl; [repeat constructor|].
  destruct (String.ltb x.1 y.1) eqn:Hlt.
  - constructor; [done|]. rewrite insert_desc_perm.
    constructor; [|done]. apply path_lt_spec in Hlt as [? _]. done.
  - apply ltb_false_le in Hlt. constructor; [by constructor|].
    constructor; [done|]. eapply Forall_impl; [done|].
    intros z Hz. simpl in Hz. by etrans.
Qed.

Lemma sort_desc_sorted (l : list (string * PathSpec)) :
  StronglySorted (λ a b, String.le b.1 a.1) (TreePathSpec.sort_desc l).
Proof.
  induction l as [|x l IH]; simpl; [constructor|].
  by apply insert_desc_sorted.
Qed.

Lemma load_fold (fs : FileSystem) (self : TreePathSpec PathSpec)
    (walk : list (string * list string * list string)) :
  let step := (λ (self : TreePathSpec PathSpec)
                 '((root, dirs, files) : string * list string * list string),
                 if bool_decide (pathspec_name self ∈ files)
                 then TreePathSpec._load_pathspec self (_add_slash root)
                        (readlines fs
                           (posixpath.join root (pathspec_name self)))
                 else self) in
  pathspec_name (foldl step self walk) = pathspec_name self
  ∧ root_dir (foldl step self walk) = root_dir self
  ∧ pathspec_list (foldl step self walk)
    = pathspec_list self
      ++ flat_map (λ '((root, dirs, files)
                        : string * list string * list string),
                     if bool_decide (pathspec_name self ∈ files)
                     then [(_add_slash root,
                            from_lines
                              (readlines fs
                                 (posixpath.join root (pathspec_name self))))]
                     else []) walk.
Proof.
  intros step. revert self.
  induction walk as [|[[root dirs] files] walk IH]; intros self.
  - simpl. by rewrite app_nil_r.
  - change (foldl step self ((root, dirs, files) :: walk))
      with (foldl step (step self (root, dirs, files)) walk).
    destruct (IH (step self (root, dirs, files))) as (Hn & Hr & Hl).
    rewrite Hn, Hr, Hl. clear IH Hn Hr Hl.
    assert (pathspec_name (step self (root, dirs, files)) = pathspec_name self)
      as -> by (unfold step; by case_bool_decide).
    unfold step. simpl. case_bool_decide; simpl; [|done].
    by rewrite <-app_assoc.
Qed.

Lemma load_perm (fs : FileSystem) (self : TreePathSpec PathSpec) :
  pathspec_list (TreePathSpec.load fs self)
  ≡ₚ pathspec_list self ++ walked_scopes fs (pathspec_name self).
Proof.
  destruct (load_fold fs self (os_walk fs)) as (_ & _ & Hl).
  unfold TreePathSpec.load. simpl. by rewrite sort_desc_perm, Hl.
Qed.

(** X12: [load] keeps the name and the root directory, adds one scope for
    each walked directory that holds the ignore file, loses none and
    duplicates none, and leaves the scopes in descending order of their
    roots; loaded from a fresh object, every root starts with a slash. *)
Theorem load_sorts_walked_scopes (fs : FileSystem)
    (self : TreePathSpec PathSpec) :
  pathspec_name (TreePathSpec.load fs self) = pathspec_name self
  ∧ root_dir (TreePathSpec.load fs self) = root_dir self
  ∧ pathspec_list (TreePathSpec.load fs self)
    ≡ₚ pathspec_list self ++ walked_scopes fs (pathspec_name self)
  ∧ StronglySorted (λ a b, String.le b.1 a.1)
      (pathspec_list (TreePathSpec.load fs self))
  ∧ (pathspec_list self = [] →
     Forall (λ scope, Py.startswith scope.1 "/" = true)
       (pathspec_list (TreePathSpec.load fs self))).
Proof.
  destruct (load_fold fs self (os_walk fs)) as (Hn & Hr & Hl).
  unfold TreePathSpec.load. simpl.
  split; [done|]. split; [done|].
  pose proof (load_perm fs self) as Hperm. unfold TreePathSpec.load in Hperm.
  simpl in Hperm.
  split; [done|]. split; [apply sort_desc_sorted|].
  intros Hnil. rewrite Hperm, Hnil. simpl. unfold walked_scopes.
  apply Forall_forall. intros scope Hin.
  apply list_elem_of_In, in_flat_map in Hin as ([[root dirs] files] & _ & Hin).
  case_bool_decide; [|done]. destruct Hin as [<-|[]]. simpl.
  unfold _add_slash. case_bool_decide; [done|].
  destruct (Py.startswith root "./") eqn:Hds.
  - apply startswith_inv in Hds as [u ->]. destruct u; reflexivity.
  - destruct (Py.startswith root "/") eqn:Hs; simpl; [done|].
    destruct root; reflexivity.
Qed.

(** [match] raises exactly on the empty path with a scope loaded. *)
Lemma match_loop_None_iff cwd (l : list (string * PathSpec)) file :
  TreePathSpec.match_loop cwd l file = None ↔ file = "" ∧ l ≠ [].
Proof.
  destruct (decide (file = "")) as [->|Hne].
  - destruct l as [|[root spec] l]; simpl; [|done].
    split; [done|]. by intros [_ ?].
  - destruct (match_loop_is_Some cwd l file Hne) as [b ->].
    split; [done|]. by intros [? _].
Qed.

(** X13: the verdict of [match] does not depend on the order of the
    scopes: two lists with the same scopes give the same result on every
    file, so the sort at the end of [load] changes no verdict.  [match]
    raises exactly when the file is the empty path and a scope is loaded. *)
Theorem match_ignores_scope_order (cwd : string)
    (l l' : list (string * PathSpec)) (file : string) :
  (l ≡ₚ l' →
   TreePathSpec.match_loop cwd l file = TreePathSpec.match_loop cwd l' file)
  ∧ (∀ fs self,
       TreePathSpec.match_ cwd (TreePathSpec.load fs self) file
       = TreePathSpec.match_loop cwd
           (pathspec_list self ++ walked_scopes fs (pathspec_name self)) file)
  ∧ (TreePathSpec.match_loop cwd l file = None ↔ file = "" ∧ l ≠ []).
Proof.
  assert (∀ k k' : list (string * PathSpec), k ≡ₚ k' →
    TreePathSpec.match_loop cwd k file = TreePathSpec.match_loop cwd k' file)
    as Hperm.
  { intros k k' Hkk'.
    destruct (TreePathSpec.match_loop cwd k file) as [b|] eqn:Hk,
      (TreePathSpec.match_loop cwd k' file) as [b'|] eqn:Hk'.
    - f_equal. apply eq_true_iff_eq.
      rewrite <-(inj_iff Some b true), <-(inj_iff Some b' true), <-Hk, <-Hk'.
      rewrite !match_loop_true_iff. by setoid_rewrite Hkk'.
    - apply match_loop_None_iff in Hk' as [-> Hne].
      assert (k ≠ []) as Hne' by (by intros ->; apply Permutation_nil_l in Hkk').
      assert (TreePathSpec.match_loop cwd k "" = None) as Hnone
        by (by apply match_loop_None_iff).
      congruence.
    - apply match_loop_None_iff in Hk as [-> Hne].
      assert (k' ≠ []) as Hne'
        by (by intros ->; apply Permutation_nil_r in Hkk').
      assert (TreePathSpec.match_loop cwd k' "" = None) as Hnone
        by (by apply match_loop_None_iff).
      congruence.
    - done. }
  split; [apply Hperm|]. split; [|apply match_loop_None_iff].
  intros fs self. unfold TreePathSpec.match_. apply Hperm.
  apply load_perm.
Qed.

End pathspec_loading.

(** ** Scopes that are never consulted *)

Lemma append_cons c s t : String c s +:+ t = String c (s +:+ t).
Proof. reflexivity. Qed.

Lemma append_assoc a b c : (a +:+ b) +:+ c = a +:+ (b +:+ c).
Proof.
  induction a as [|x a IH]; [done|]. by rewrite !append_cons, IH.
Qed.

Lemma startswith_append s t : Py.startswith (s +:+ t) s = true.
Proof.
  unfold Py.startswith. induction s as [|a s IH].
  - by destruct t.
  - rewrite append_cons. simpl. destruct (ascii_dec a a); [done|congruence].
Qed.

Lemma split_not_nil sep s : Py.split sep s ≠ [].
Proof.
  destruct s as [|c s]; simpl; [done|].
  case_decide; [done|]. by destruct (Py.split sep s).
Qed.

(** No part of a split starts with the separator. *)
Lemma split_no_sep sep s x :
  x ∈ Py.split sep s → Py.startswith x (String sep "") = false.
Proof.
  revert x. induction s as [|c s IH]; intros x; simpl.
  - by intros ->%list_elem_of_singleton.
  - case_decide as Hc.
    + intros [->|?]%elem_of_cons; [done|by apply IH].
    + destruct (Py.split sep s) as [|h t] eqn:Hs.
      * intros ->%list_elem_of_singleton. unfold Py.startswith. simpl.
        destruct (ascii_dec sep c); [congruence|done].
      * intros [->|Hx]%elem_of_cons.
        -- unfold Py.startswith. simpl.
           destruct (ascii_dec sep c); [congruence|done].
        -- apply IH. by right.
Qed.

Lemma join_appends a x :
  Py.startswith x "/" = false → ∃ u, posixpath.join a x = a +:+ u.
Proof.
  intros Hx. unfold posixpath.join. rewrite Hx.
  destruct (bool_decide (a = "") || Py.endswith a "/"); eauto.
Qed.

Lemma join_keeps_parent a x :
  a = ".." ∨ Py.startswith a "../" = true →
  Py.startswith x "/" = false →
  Py.startswith (posixpath.join a x) "../" = true.
Proof.
  intros [->|Ha] Hx.
  - unfold posixpath.join. rewrite Hx. simpl. destruct x; reflexivity.
  - destruct (join_appends a x Hx) as [u ->].
    apply startswith_inv in Ha as [v ->]. rewrite append_assoc.
    apply startswith_append.
Qed.

Lemma foldl_join_keeps_parent a xs :
  a = ".." ∨ Py.startswith a "../" = true →
  xs ≠ [] →
  Forall (λ x, Py.startswith x "/" = false) xs →
  Py.startswith (foldl posixpath.join a xs) "../" = true.
Proof.
  intros Ha Hne Hxs. revert a Ha Hne.
  induction Hxs as [|x xs Hx Hxs IH]; intros a Ha Hne; [done|]. simpl.
  pose proof (join_keeps_parent a x Ha Hx) as Hjoin.
  destruct xs as [|y xs]; [done|]. apply IH; [by right|done].
Qed.

Lemma path_components_no_slash p x :
  x ∈ path_components p → Py.startswith x "/" = false.
Proof.
  intros [Hx _]%list_elem_of_In%filter_In.
  by apply (split_no_sep "/" p), list_elem_of_In.
Qed.

Lemma relpath_components cwd file start :
  file ≠ "" →
  posixpath.relpath cwd file start
  = let start_list := path_components (posixpath.abspath cwd start) in
    let path_list := path_components (posixpath.abspath cwd file) in
    let i := posixpath.commonprefix_len start_list path_list in
    match replicate (length start_list - i) ".." ++ List.skipn i path_list with
    | [] => Some "."
    | first :: others => Some (foldl posixpath.join first others)
    end.
Proof.
  intros Hne. unfold posixpath.relpath. by rewrite bool_decide_eq_false_2.
Qed.

(** X14: a scope is skipped, whatever its patterns, when the absolute path
    of its root and the absolute path of the file differ in their first
    component: [relpath] then starts with [../].  So the scope of a nested
    ignore file, whose root [load] records as [/keep], is never consulted
    for a tree path such as [keep/important.log] resolved against a working
    directory outside [/keep]. *)
Theorem scope_with_other_first_component_is_skipped `{PathSpecLib PathSpec}
    (cwd root file s q : string) (ss qs : list string) (spec : PathSpec)
    (rest : list (string * PathSpec))
    (Hfile : file ≠ "")
    (Hroot : path_components (posixpath.abspath cwd root) = s :: ss)
    (Hpath : path_components (posixpath.abspath cwd file) = q :: qs)
    (Hdiff : s ≠ q) :
  (∃ rel, posixpath.relpath cwd file root = Some rel
          ∧ Py.startswith rel "../" = true)
  ∧ TreePathSpec.match_loop cwd ((root, spec) :: rest) file
    = TreePathSpec.match_loop cwd rest file.
Proof.
  assert (∃ rel, posixpath.relpath cwd file root = Some rel
                 ∧ Py.startswith rel "../" = true) as (rel & Hrel & Hparent).
  { rewrite relpath_components by done. cbv zeta. rewrite Hroot, Hpath.
    simpl. rewrite bool_decide_eq_false_2 by done. simpl.
    eexists. split; [done|].
    apply foldl_join_keeps_parent; [by left|by destruct ss|].
    apply Forall_app. split.
    - apply Forall_forall. by intros x [-> _]%elem_of_replicate.
    - apply Forall_forall. intros x Hx.
      apply (path_components_no_slash (posixpath.abspath cwd file)).
      rewrite Hpath. apply Hx. }
  split; [by exists rel|]. simpl. rewrite Hrel. simpl. by rewrite Hparent.
Qed.

Lemma scope_with_other_first_component_is_skipped_witness :
  path_components (posixpath.abspath "/home/user/site" "/keep") = ["keep"]
  ∧ path_components
      (posixpath.abspath "/home/user/site" "keep/important.log")
    = ["home"; "user"; "site"; "keep"; "important.log"]
  ∧ (∃ rel,
       posixpath.relpath "/home/user/site" "keep/important.log" "/keep"
       = Some rel
       ∧ Py.startswith rel "../" = true)
  ∧ TreePathSpec.match_loop "/home/user/site"
      [("/keep", ["*"]); ("/", ["*.log"])] "keep/important.log"
    = TreePathSpec.match_loop "/home/user/site"
        [("/", ["*.log"])] "keep/important.log".
Proof.
  split; [reflexivity|]. split; [reflexivity|].
  exact (scope_with_other_first_component_is_skipped
           "/home/user/site" "/keep" "keep/important.log" "keep" "home"
           [] ["user"; "site"; "keep"; "important.log"] ["*"]
           [("/", ["*.log"])]
           ltac:(discriminate) eq_refl eq_refl ltac:(discriminate)).
Defined.

(** ** More on the ignore filter *)

Lemma filter_redundant {A} (f g : A → bool) (l : list A) :
  (∀ x, f x = true → g x = true) →
  List.filter g (List.filter f l) = List.filter f l.
Proof.
  intros Hfg. induction l as [|x l IH]; simpl; [done|].
  destruct (f x) eqn:Hf; simpl; [|done]. by rewrite (Hfg x Hf), IH.
Qed.

Lemma vcs_name_is_hidden name :
  name ∈ IgnoreFiles.vcs_files → Py.startswith name "." = true.
Proof.
  rewrite vcs_files_elem. intros Hin.
  repeat (apply elem_of_cons in Hin as [->|Hin]; [done|]).
  by apply elem_of_nil in Hin.
Qed.

Lemma hidden_covers_vcs p :
  negb (utils.path_match_any_element p (λ seg, Py.startswith seg ".")) = true →
  negb (utils.path_match_any_element p
          (λ seg, bool_decide (seg ∈ IgnoreFiles.vcs_files))) = true.
Proof.
  unfold utils.path_match_any_element. rewrite !negb_true_iff.
  intros Hhidden. apply not_true_is_false.
  intros (seg & Hseg & Hvcs)%existsb_exists.
  apply bool_decide_eq_true, vcs_name_is_hidden in Hvcs.
  assert (existsb (λ seg, Py.startswith seg ".") (Py.split "/" p) = true)
    as Hex by (apply existsb_exists; eauto).
  congruence.
Qed.

(** X15: unless hidden files are synced, [sync_vcs] has no effect on the
    filter: every VCS name starts with a dot, so the hidden-file step has
    already dropped what the VCS step would drop. *)
Theorem sync_vcs_needs_sync_hidden `{PathSpecLib PathSpec}
    (cwd : string) (config : SiteConfig) (spec : TreePathSpec PathSpec)
    (tree : FileTree) (v : option bool)
    (Hhidden : Py.truthy (sync_hidden config) = false) :
  IgnoreFiles.filter cwd
    {| IgnoreFiles.config := set_sync_vcs v config;
       IgnoreFiles.pathspec := spec |} tree
  = IgnoreFiles.filter cwd
      {| IgnoreFiles.config := config; IgnoreFiles.pathspec := spec |} tree.
Proof.
  unfold IgnoreFiles.filter, FileTree.filter. cbv zeta. simpl.
  unfold IgnoreFiles.allowed_set. simpl.
  destruct (IgnoreFiles.filter_raising _ _) as [kept|]; simpl; [|done].
  rewrite Hhidden. simpl. f_equal.
  rewrite !filter_redundant by (intros e; apply hidden_covers_vcs).
  by destruct (Py.truthy v), (Py.truthy (sync_vcs config)).
Qed.

Lemma sync_vcs_needs_sync_hidden_witness :
  Py.truthy (sync_hidden (IgnoreExamples.config true false)) = false
  ∧ IgnoreFiles.filter IgnoreExamples.cwd
      {| IgnoreFiles.config :=
           set_sync_vcs (Some true) (IgnoreExamples.config true false);
         IgnoreFiles.pathspec :=
           IgnoreFiles.pathspec (IgnoreExamples.ignore true false) |}
      IgnoreExamples.tree
    = IgnoreFiles.filter IgnoreExamples.cwd
        {| IgnoreFiles.config := IgnoreExamples.config true false;
           IgnoreFiles.pathspec :=
             IgnoreFiles.pathspec (IgnoreExamples.ignore true false) |}
        IgnoreExamples.tree.
Proof.
  split; [reflexivity|].
  exact (sync_vcs_needs_sync_hidden IgnoreExamples.cwd
           (IgnoreExamples.config true false)
           (IgnoreFiles.pathspec (IgnoreExamples.ignore true false))
           IgnoreExamples.tree (Some true) eq_refl).
Defined.

(** X16: filtering twice is filtering once: on a tree with no empty path
    the filter returns a tree, and that tree passes the filter unchanged. *)
Theorem ignore_filter_idempotent `{PathSpecLib PathSpec}
    (cwd : string) (self : IgnoreFiles.t) (tree : FileTree)
    (Hpaths : ∀ e, e ∈ tree → path e ≠ "") :
  ∃ out, IgnoreFiles.filter cwd self tree = Some out
         ∧ IgnoreFiles.filter cwd self out = Some out
         ∧ out `sublist_of` tree.
Proof.
  exists (List.filter (Policy.keeps cwd self) tree).
  split; [by apply filter_as_conjunction|]. split.
  - rewrite filter_as_conjunction.
    + f_equal. rewrite filter_filter_and. apply filter_ext_in.
      intros e _. apply andb_diag.
    + intros e [He _]%list_elem_of_In%filter_In.
      by apply Hpaths, list_elem_of_In.
  - induction tree as [|e tree IH]; simpl; [constructor|].
    destruct (Policy.keeps cwd self e).
    + apply sublist_skip, IH. intros e' ?. apply Hpaths. by right.
    + apply sublist_cons, IH. intros e' ?. apply Hpaths. by right.
Qed.

Lemma ignore_filter_idempotent_witness :
  (∀ e, e ∈ IgnoreExamples.tree → path e ≠ "")
  ∧ ∃ out,
      IgnoreFiles.filter IgnoreExamples.cwd
        (IgnoreExamples.ignore false false) IgnoreExamples.tree = Some out
      ∧ IgnoreFiles.filter IgnoreExamples.cwd
          (IgnoreExamples.ignore false false) out = Some out
      ∧ out `sublist_of` IgnoreExamples.tree.
Proof.
  split; [exact ignore_example_paths|].
  exact (ignore_filter_idempotent IgnoreExamples.cwd
           (IgnoreExamples.ignore false false) IgnoreExamples.tree
           ignore_example_paths).
Defined.

(** ** Removing empty directories *)

Lemma startswith_trans a b c :
  Py.startswith a b = true → Py.startswith b c = true →
  Py.startswith a c = true.
Proof.
  intros [u ->]%startswith_inv [v ->]%startswith_inv.
  rewrite append_assoc. apply startswith_append.
Qed.

Lemma sorted_reverse_desc l :
  StronglySorted (flip String.le) (main.sorted_reverse l).
Proof.
  unfold main.sorted_reverse. apply Sorted_StronglySorted; [apply _|].
  apply Sorted_reverse, Sorted_merge_sort. apply _.
Qed.

Lemma elem_of_sorted_reverse l x : x ∈ main.sorted_reverse l ↔ x ∈ l.
Proof.
  unfold main.sorted_reverse.
  by rewrite elem_of_reverse, merge_sort_Permutation.
Qed.

(** X17: everything below an empty directory is an empty directory, and
    [main] removes it first: when [d] is in the list of deletions, every
    entry whose path starts with [d + "/"] is a directory, its path is in
    the list too, and all the positions of that path come before all the
    positions of [d]. *)
Theorem empty_dirs_are_removed_children_first (remote : FileTree)
    (d : string) (e : FileTreeEntry) :
  d ∈ main.empty_dir_deletions remote →
  e ∈ remote →
  Py.startswith (path e) (d +:+ "/") = true →
  is_directory e = true
  ∧ FileTree.is_empty_dir remote (path e) = true
  ∧ path e ∈ main.empty_dir_deletions remote
  ∧ ∀ i j,
      main.empty_dir_deletions remote !! i = Some (path e) →
      main.empty_dir_deletions remote !! j = Some d →
      (i < j)%nat.
Proof.
  unfold main.empty_dir_deletions. rewrite !elem_of_sorted_reverse.
  intros Hd He Hunder.
  assert (FileTree.is_empty_dir remote d = true) as Hempty.
  { unfold FileTree.list_empty_directories in Hd.
    apply list_elem_of_fmap in Hd as (x & -> & Hx).
    apply list_elem_of_In, filter_In in Hx as [_ Hx].
    by apply andb_true_iff in Hx as [_ ?]. }
  unfold FileTree.is_empty_dir in Hempty.
  destruct (FileTree.find remote d) as [dir|]; [|done].
  destruct (is_directory dir); [|done]. simpl in Hempty.
  rewrite no_file_under_spec in Hempty.
  assert (∀ x, x ∈ remote → Py.startswith (path x) (d +:+ "/") = true →
               is_directory x = true) as Hdirs.
  { intros x Hx Hs. destruct (is_directory x) eqn:Hdx; [done|].
    rewrite (Hempty x Hx Hdx) in Hs. done. }
  assert (FileTree.is_empty_dir remote (path e) = true) as Hsub.
  { unfold FileTree.is_empty_dir.
    destruct (find_is_Some remote e He) as [e' He']. rewrite He'.
    apply find_Some in He' as [Hin' Hp'].
    rewrite (Hdirs e') by (by rewrite ?Hp'). simpl.
    apply no_file_under_spec. intros x Hx Hdx.
    destruct (Py.startswith (path x) (path e +:+ "/")) eqn:Hs; [|done].
    assert (Py.startswith (path x) (d +:+ "/") = true) as Hxd.
    { eapply startswith_trans; [done|].
      apply startswith_inv in Hunder as [u ->]. rewrite append_assoc.
      apply startswith_append. }
    rewrite (Hdirs x Hx Hxd) in Hdx. done. }
  split; [by apply Hdirs|]. split; [done|]. split.
  - unfold FileTree.list_empty_directories. apply list_elem_of_fmap.
    exists e. split; [done|]. apply list_elem_of_In, filter_In.
    split; [by apply list_elem_of_In|]. by rewrite (Hdirs e He Hunder), Hsub.
  - intros i j Hi Hj.
    pose proof (startswith_slash_lt _ _ Hunder) as Hlt.
    destruct (Nat.lt_trichotomy i j) as [?|[->|Hji]]; [done|..].
    + rewrite Hi in Hj. injection Hj as Heq. rewrite Heq in Hlt.
      by apply path_lt_irrefl in Hlt.
    + pose proof (StronglySorted_lookup_lt _ _ j i d (path e)
                    (sorted_reverse_desc _) Hj Hi Hji) as Hle.
      simpl in Hle. apply path_lt_spec in Hlt as [Hde Hne].
      destruct Hne. by apply (anti_symm String.le).
Qed.

Lemma empty_dirs_are_removed_children_first_witness :
  "empty-directory" ∈ main.empty_dir_deletions Doctests.empties
  ∧ main.empty_dir_deletions Doctests.empties
    = ["really-empty"; "empty-directory/empty-child"; "empty-directory"]
  ∧ FileTree.is_empty_dir Doctests.empties "empty-directory/empty-child" = true.
Proof.
  assert ("empty-directory" ∈ main.empty_dir_deletions Doctests.empties)
    as Hd.
  { apply (bool_decide_unpack _). vm_compute. exact I. }
  split; [exact Hd|]. split; [vm_compute; reflexivity|].
  refine (proj1 (proj2 (empty_dirs_are_removed_children_first
            Doctests.empties "empty-directory"
            (Examples.Directory "empty-directory/empty-child") Hd _ eq_refl))).
  apply (bool_decide_unpack _). vm_compute. exact I.
Defined.

(** ** The shape of a file extension *)

Lemma rfind_cons_lt c a s k :
  Py.rfind c (String a s) < Z.of_nat (S k) → Py.rfind c s < Z.of_nat k.
Proof.
  simpl Py.rfind. pose proof (rfind_ge c s).
  destruct (Z.leb_spec 0 (Py.rfind c s)); [lia|]. intros _. lia.
Qed.

(** Past the last occurrence of a character there is no occurrence. *)
Lemma rfind_drop_lt c s k :
  Py.rfind c s < Z.of_nat k → Py.rfind c (Py.drop k s) = -1.
Proof.
  revert s. induction k as [|k IH]; intros s Hk.
  - pose proof (rfind_ge c s). simpl. lia.
  - destruct s as [|a s]; [done|]. simpl Py.drop.
    by apply IH, rfind_cons_lt with a.
Qed.

(** At the last occurrence of a character the string goes on with it, and
    it does not occur after. *)
Lemma rfind_drop c s :
  0 ≤ Py.rfind c s →
  ∃ rest, Py.drop (Z.to_nat (Py.rfind c s)) s = String c rest
          ∧ Py.rfind c rest = -1.
Proof.
  induction s as [|a s IH]; simpl; [lia|].
  pose proof (rfind_ge c s) as Hge.
  destruct (Z.leb_spec 0 (Py.rfind c s)) as [Hr|Hr].
  - intros _. destruct (IH Hr) as (rest & Hrest & Hnone).
    exists rest. split; [|done].
    replace (Z.to_nat (Py.rfind c s + 1)) with (S (Z.to_nat (Py.rfind c s)))
      by lia.
    done.
  - case_decide as Ha; [|lia]. intros _. subst a. exists s.
    split; [done|lia].
Qed.

Lemma substring_drop n s :
  String.substring 0 n s +:+ Py.drop n s = s.
Proof.
  revert s. induction n as [|n IH]; intros s.
  - by destruct s.
  - destruct s as [|a s]; [done|]. simpl. by rewrite append_cons, IH.
Qed.

Lemma append_empty_r s : s +:+ "" = s.
Proof. induction s as [|a s IH]; [done|]. by rewrite append_cons, IH. Qed.

(** X18: [splitext] cuts the path in two: the root followed by the
    extension is the path.  The extension is empty, or it is a dot followed
    by characters among which there is neither a dot nor a slash. *)
Theorem file_extension_shape (p : string) :
  (posixpath.splitext p).1 +:+ utils.file_extension p = p
  ∧ (utils.file_extension p = ""
     ∨ ∃ rest, utils.file_extension p = String "."%char rest
               ∧ Py.rfind "." rest = -1 ∧ Py.rfind "/" rest = -1).
Proof.
  unfold utils.file_extension, posixpath.splitext.
  destruct (Z.ltb_spec (Py.rfind "/" p) (Py.rfind "." p)) as [Hlt|Hge];
    simpl; [|split; [apply append_empty_r|by left]].
  destruct (posixpath.splitext_scan p _ _); simpl;
    [|split; [apply append_empty_r|by left]].
  pose proof (rfind_ge "/" p) as Hsep.
  split.
  - unfold Py.slice. rewrite Z.sub_0_r. simpl. apply substring_drop.
  - right. destruct (rfind_drop "." p) as (rest & Hrest & Hnone); [lia|].
    exists rest. split; [done|]. split; [done|].
    pose proof (rfind_drop_lt "/" p (Z.to_nat (Py.rfind "." p))) as Hslash.
    rewrite Hrest in Hslash. simpl in Hslash.
    pose proof (rfind_ge "/" rest).
    destruct (Z.leb_spec 0 (Py.rfind "/" rest)); [|lia].
    specialize (Hslash ltac:(lia)). lia.
Qed.

(** ** Walking the local directory *)

Lemma Node_nested_ind (P : local.Node → Prop) :
  (∀ n t sz h, P (local.RegularFile n t sz h)) →
  (∀ n t, P (local.Special n t)) →
  (∀ n t children, Forall P children → P (local.Dir n t children)) →
  ∀ node, P node.
Proof.
  intros Hfile Hspecial Hdir. fix IH 1.
  intros [n t sz h|n t children|n t]; [apply Hfile| |apply Hspecial].
  apply Hdir. induction children as [|c children IHc]; constructor.
  - apply IH.
  - apply IHc.
Qed.

Lemma rfind_cons_none c a s :
  Py.rfind c (String a s) = -1 ↔ a ≠ c ∧ Py.rfind c s = -1.
Proof.
  simpl. pose proof (rfind_ge c s).
  destruct (Z.leb_spec 0 (Py.rfind c s)); [lia|].
  case_decide; split; try lia; try tauto. intros _. split; [done|lia].
Qed.

Lemma rfind_none_split sep a :
  Py.rfind sep a = -1 → Py.split sep a = [a].
Proof.
  induction a as [|c a IH]; [done|].
  intros [Hc Ha]%rfind_cons_none. simpl.
  rewrite decide_False by done. by rewrite IH.
Qed.

Lemma split_append_sep sep a q :
  Py.rfind sep a = -1 →
  Py.split sep (a +:+ String sep q) = a :: Py.split sep q.
Proof.
  induction a as [|c a IH].
  - intros _. change ("" +:+ String sep q) with (String sep q). simpl.
    by rewrite decide_True.
  - intros [Hc Ha]%rfind_cons_none. rewrite append_cons. simpl.
    rewrite decide_False by done. by rewrite IH.
Qed.

Lemma rev_app_no_sep c s acc :
  Py.rfind c s = -1 →
  String.prefix (String c "") acc = false →
  String.prefix (String c "") (String.rev_app s acc) = false.
Proof.
  revert acc. induction s as [|a s IH]; intros acc Hs Hacc; [done|].
  apply rfind_cons_none in Hs as [Ha Hs]. simpl. apply IH; [done|].
  simpl. destruct (ascii_dec c a); [congruence|done].
Qed.

Lemma startswith_char c x s :
  x ≠ c → Py.startswith (String x s) (String c "") = false.
Proof.
  intros Hx. unfold Py.startswith. simpl.
  destruct (ascii_dec c x); [congruence|done].
Qed.

Lemma valid_name_no_slash a :
  local.valid_name a →
  Py.startswith a "/" = false ∧ Py.endswith a "/" = false.
Proof.
  intros [Hne Hslash]. split.
  - destruct a as [|c a]; [done|].
    apply rfind_cons_none in Hslash as [Hc _]. by apply startswith_char.
  - unfold Py.endswith, String.rev. by apply rev_app_no_sep.
Qed.

Lemma join_valid a q :
  local.valid_name a → Py.startswith q "/" = false →
  posixpath.join a q = a +:+ String "/" q.
Proof.
  intros Ha Hq. destruct (valid_name_no_slash a Ha) as [_ Hend].
  unfold posixpath.join. rewrite Hq, Hend.
  rewrite bool_decide_eq_false_2 by apply Ha. done.
Qed.

Lemma join_valid_inj a q q' :
  local.valid_name a → Py.startswith q "/" = false →
  Py.startswith q' "/" = false →
  posixpath.join a q = posixpath.join a q' → q = q'.
Proof.
  intros Ha Hq Hq'. rewrite !join_valid by done.
  intros Heq%(inj (String.app a)). by injection Heq.
Qed.

Lemma find_by_name (children : list local.Node) (c : local.Node) :
  NoDup (local.name <$> children) → c ∈ children →
  List.find (λ n, String.eqb (local.name n) (local.name c)) children = Some c.
Proof.
  induction children as [|x children IH]; [by intros _ ?%elem_of_nil|].
  rewrite fmap_cons, NoDup_cons. intros [Hnotin Hnd] [->|Hc]%elem_of_cons.
  - simpl. by rewrite String.eqb_refl.
  - simpl. destruct (String.eqb_spec (local.name x) (local.name c)) as [Heq|_].
    + destruct Hnotin. rewrite Heq. by apply list_elem_of_fmap_2.
    + by apply IH.
Qed.

(** The names listed are the paths of the nodes below. *)
Lemma list_files_nodes_below node :
  local.isdir node = true →
  local._list_files node = Some ((local.nodes_below node).*1).
Proof.
  induction node as [| |n t children IH] using Node_nested_ind; [done..|].
  intros _. simpl. f_equal.
  induction IH as [|c children Hc _ IHcs]; [done|]. simpl.
  rewrite fmap_app, IHcs. f_equal. f_equal.
  destruct (local.isdir c) eqn:Hdir.
  - rewrite (Hc eq_refl). simpl. rewrite <-!list_fmap_compose.
    by apply list_fmap_ext.
  - by destruct c.
Qed.

(** One child's share of the listing. *)
Lemma elem_of_nodes_below n t children p m :
  (p, m) ∈ local.nodes_below (local.Dir n t children)
  ↔ ∃ c, c ∈ children
         ∧ ((p, m) = (local.name c, c)
            ∨ ∃ q, p = posixpath.join (local.name c) q
                   ∧ (q, m) ∈ local.nodes_below c).
Proof.
  simpl. rewrite list_elem_of_In, in_flat_map.
  setoid_rewrite <-list_elem_of_In. setoid_rewrite elem_of_cons.
  setoid_rewrite list_elem_of_fmap. split.
  - intros (c & Hc & [?|([q m'] & [= -> ->] & Hq)]); exists c; eauto.
  - intros (c & Hc & [?|(q & -> & Hq)]); exists c; [eauto|].
    split; [done|]. right. by exists (q, m).
Qed.

(** On a well-formed tree every listed path is not empty, does not start
    with a slash, and denotes the node it was listed for. *)
Lemma nodes_below_lookup node :
  local.well_formed node →
  ∀ p m, (p, m) ∈ local.nodes_below node →
    p ≠ "" ∧ Py.startswith p "/" = false
    ∧ local.lookup_components node (Py.split "/" p) = Some m.
Proof.
  induction node as [| |n t children IH] using Node_nested_ind;
    [by intros _ p m ?%elem_of_nil..|].
  intros Hwf p m (c & Hc & Hpm)%elem_of_nodes_below.
  inversion Hwf as [| |? ? ? Hnd Hvalid Hwfs]; subst.
  rewrite Forall_forall in IH, Hvalid, Hwfs.
  pose proof (Hvalid c Hc) as Hname.
  destruct (valid_name_no_slash _ Hname) as [Hstart _].
  destruct Hpm as [[= -> ->]|(q & -> & Hq)].
  - split; [apply Hname|]. split; [done|].
    rewrite rfind_none_split by apply Hname. simpl.
    by rewrite find_by_name.
  - destruct (IH c Hc (Hwfs c Hc) q m Hq) as (Hq1 & Hq2 & Hq3).
    rewrite join_valid by done.
    destruct (local.name c) as [|x rest] eqn:Hn; [by destruct Hname|].
    split; [by rewrite append_cons|]. split.
    + rewrite append_cons. apply startswith_char.
      destruct Hname as [_ [? _]%rfind_cons_none]. done.
    + rewrite split_append_sep by apply Hname. simpl.
      rewrite <-Hn, find_by_name by done. done.
Qed.

Lemma nodes_below_first_component n t children c p m :
  local.well_formed (local.Dir n t children) → c ∈ children →
  ((p, m) = (local.name c, c)
   ∨ ∃ q, p = posixpath.join (local.name c) q
          ∧ (q, m) ∈ local.nodes_below c) →
  head (Py.split "/" p) = Some (local.name c).
Proof.
  intros Hwf Hc Hpm. inversion Hwf as [| |? ? ? Hnd Hvalid Hwfs]; subst.
  rewrite Forall_forall in Hvalid, Hwfs. pose proof (Hvalid c Hc) as Hname.
  destruct Hpm as [[= -> ->]|(q & -> & Hq)].
  - by rewrite rfind_none_split by apply Hname.
  - destruct (nodes_below_lookup c (Hwfs c Hc) q m Hq) as (_ & Hq2 & _).
    rewrite join_valid by done.
    by rewrite split_append_sep by apply Hname.
Qed.

(** On a well-formed tree no path is listed twice. *)
Lemma nodes_below_NoDup node :
  local.well_formed node → NoDup (local.nodes_below node).*1.
Proof.
  induction node as [| |n t children IH] using Node_nested_ind;
    [intros _; constructor..|].
  intros Hwf. pose proof Hwf as Hwf'.
  inversion Hwf as [| |? ? ? Hnd Hvalid Hwfs]; subst.
  assert (∀ c p m, c ∈ children →
            ((p, m) = (local.name c, c)
             ∨ ∃ q, p = posixpath.join (local.name c) q
                    ∧ (q, m) ∈ local.nodes_below c) →
            head (Py.split "/" p) = Some (local.name c)) as Hfirst.
  { intros c p m Hc Hpm. by eapply nodes_below_first_component. }
  clear Hwf Hwf'. simpl.
  induction children as [|c children IHcs]; [constructor|].
  apply Forall_cons in IH as [IHc IH]. apply Forall_cons in Hvalid as [Hname Hvalid].
  apply Forall_cons in Hwfs as [Hwfc Hwfs].
  rewrite fmap_cons in Hnd. apply NoDup_cons in Hnd as [Hnotin Hnd].
  destruct (valid_name_no_slash _ Hname) as [Hstart _].
  cbn [flat_map]. rewrite fmap_app. apply NoDup_app. split; [|split].
  - rewrite fmap_cons. simpl. apply NoDup_cons. split.
    + rewrite <-list_fmap_compose. intros ([q m] & Heq & Hq)%list_elem_of_fmap.
      simpl in Heq.
      destruct (nodes_below_lookup c Hwfc q m Hq) as (_ & Hq2 & _).
      rewrite join_valid in Heq by done.
      rewrite <-(append_empty_r (local.name c)) in Heq at 1.
      by apply (inj (String.app _)) in Heq.
    + rewrite <-list_fmap_compose.
      apply (NoDup_fmap_2_strong _ (local.nodes_below c)).
      * intros [q m] [q' m'] Hq Hq' Heq. simpl in Heq.
        destruct (nodes_below_lookup c Hwfc q m Hq) as (_ & Hq2 & Hq3).
        destruct (nodes_below_lookup c Hwfc q' m' Hq') as (_ & Hq2' & Hq3').
        apply join_valid_inj in Heq; [|done..]. subst q'.
        rewrite Hq3 in Hq3'. by injection Hq3' as ->.
      * assert (NoDup (local.nodes_below c).*1) as Hndc by (by apply IHc).
        by apply NoDup_fmap_1 in Hndc.
  - intros p Hp Hp'.
    assert (head (Py.split "/" p) = Some (local.name c)) as Hhead.
    { apply list_elem_of_fmap in Hp as ([p0 m] & -> & Hpm).
      apply (Hfirst c p0 m); [left|].
      apply elem_of_cons in Hpm as [?|Hpm]; [by left|right].
      apply list_elem_of_fmap in Hpm as ([q m'] & [= -> ->] & Hq).
      by exists q. }
    apply list_elem_of_fmap in Hp' as ([p0 m] & -> & Hpm).
    apply list_elem_of_In, in_flat_map in Hpm as (c' & Hc' & Hpm).
    apply list_elem_of_In in Hc', Hpm.
    assert (head (Py.split "/" p0) = Some (local.name c')) as Hhead'.
    { apply (Hfirst c' p0 m); [by right|].
      apply elem_of_cons in Hpm as [?|Hpm]; [by left|right].
      apply list_elem_of_fmap in Hpm as ([q m'] & [= -> ->] & Hq).
      by exists q. }
    simpl in Hhead. rewrite Hhead in Hhead'. injection Hhead' as Heq.
    apply Hnotin. rewrite Heq. by apply list_elem_of_fmap_2.
  - apply IHcs; [done..|].
    intros c' p m Hc'. apply Hfirst. by right.
Qed.

Lemma fmap_sublist {A B} (f : A → B) (l1 l2 : list A) :
  l1 `sublist_of` l2 → f <$> l1 `sublist_of` f <$> l2.
Proof.
  induction 1; rewrite ?fmap_cons;
    [constructor|by apply sublist_skip|by apply sublist_cons].
Qed.

Lemma entry_of_listed node p m :
  local.well_formed node → (p, m) ∈ local.nodes_below node →
  local.entry node p = local.node_entry (p, m).
Proof.
  intros Hwf Hpm. destruct (nodes_below_lookup node Hwf p m Hpm) as (_ & _ & Hl).
  unfold local.entry. rewrite Hl. done.
Qed.

Lemma mapM_entry_nodes node (l : list (string * local.Node)) :
  Forall (λ pm, local.entry node pm.1 = local.node_entry pm) l →
  mapM (local.entry node) l.*1 = mapM local.node_entry l.
Proof.
  induction 1 as [|pm l Hpm _ IH]; [done|].
  rewrite fmap_cons. simpl. by rewrite Hpm, IH.
Qed.

Lemma filetree_nodes node :
  local.well_formed node → local.isdir node = true →
  local.filetree node = mapM local.node_entry (local.nodes_below node).
Proof.
  intros Hwf Hdir. unfold local.filetree.
  rewrite list_files_nodes_below by done. simpl.
  apply mapM_entry_nodes, Forall_forall. intros [p m] Hpm.
  by apply entry_of_listed.
Qed.

Lemma filetree_is_dir node tree :
  local.filetree node = Some tree → local.isdir node = true.
Proof. unfold local.filetree. by destruct node. Qed.

Lemma node_entry_path pm e : local.node_entry pm = Some e → path e = pm.1.
Proof.
  unfold local.node_entry. destruct pm.2; intros [= <-]; done.
Qed.

Lemma filetree_paths node tree :
  local.well_formed node → local.filetree node = Some tree →
  path <$> tree = (local.nodes_below node).*1.
Proof.
  intros Hwf Htree. pose proof (filetree_is_dir _ _ Htree) as Hdir.
  rewrite filetree_nodes in Htree by done.
  apply mapM_Some in Htree.
  induction Htree as [|pm e l k Hpm _ IH]; [done|].
  rewrite !fmap_cons, IH. f_equal. by apply node_entry_path.
Qed.

(** X19: on a well-formed directory every [stat] of a listed path finds
    the node that was listed: [filetree] returns, in listing order, a file
    entry with size and hash for each regular file and a directory entry
    for each directory below, and it fails exactly when something below is
    neither a file nor a directory. *)
Theorem filetree_follows_the_nodes (dir_path : local.Node)
    (Hwf : local.well_formed dir_path)
    (Hdir : local.isdir dir_path = true) :
  local._list_files dir_path = Some (local.nodes_below dir_path).*1
  ∧ local.filetree dir_path
    = mapM local.node_entry (local.nodes_below dir_path)
  ∧ (local.filetree dir_path = None
     ↔ ∃ p n t, (p, local.Special n t) ∈ local.nodes_below dir_path).
Proof.
  split; [by apply list_files_nodes_below|].
  split; [by apply filetree_nodes|].
  rewrite filetree_nodes by done. split.
  - intros ([p m] & Hpm & Hnone)%mapM_None_1%Exists_exists.
    unfold local.node_entry in Hnone.
    simpl in Hnone. destruct m as [| |n t]; try done. by exists p, n, t.
  - intros (p & n & t & Hpm). apply mapM_None_2, Exists_exists.
    by exists (p, local.Special n t).
Qed.

Lemma example_site_well_formed : local.well_formed local.example_site.
Proof.
  unfold local.example_site.
  repeat first
    [ apply local.wf_dir | apply local.wf_file | apply local.wf_special
    | apply Forall_cons; split | apply Forall_nil
    | apply (bool_decide_unpack _); vm_compute; exact I
    | split; [discriminate|reflexivity] ].
Defined.

Lemma filetree_follows_the_nodes_witness :
  local.well_formed local.example_site
  ∧ local.isdir local.example_site = true
  ∧ local._list_files local.example_site
    = Some ["index.html"; "img"; "img/cat.png"; "img/old"; "about.html"]
  ∧ local.filetree local.example_site
    = mapM local.node_entry (local.nodes_below local.example_site).
Proof.
  split; [exact example_site_well_formed|]. split; [reflexivity|].
  split; [reflexivity|].
  exact (proj1 (proj2 (filetree_follows_the_nodes local.example_site
                         example_site_well_formed eq_refl))).
Defined.

(** X20: the tree [filetree] builds from a well-formed directory has no
    two entries with the same path, no empty path and no path starting
    with a slash; and the ignore filter returns on it, with a tree that
    still has no two entries with the same path. *)
Theorem local_tree_has_unique_paths `{PathSpecLib PathSpec}
    (dir_path : local.Node) (tree : FileTree)
    (cwd : string) (self : IgnoreFiles.t)
    (Hwf : local.well_formed dir_path)
    (Htree : local.filetree dir_path = Some tree) :
  NoDup (path <$> tree)
  ∧ Forall (λ e, path e ≠ "" ∧ Py.startswith (path e) "/" = false) tree
  ∧ ∃ out, IgnoreFiles.filter cwd self tree = Some out
           ∧ out `sublist_of` tree ∧ NoDup (path <$> out).
Proof.
  pose proof (filetree_paths _ _ Hwf Htree) as Hpaths.
  assert (NoDup (path <$> tree)) as Hnd
    by (rewrite Hpaths; by apply nodes_below_NoDup).
  assert (Forall (λ e, path e ≠ "" ∧ Py.startswith (path e) "/" = false) tree)
    as Hshape.
  { apply Forall_forall. intros e He.
    assert (path e ∈ (local.nodes_below dir_path).*1) as Hin
      by (rewrite <-Hpaths; by apply list_elem_of_fmap_2).
    apply list_elem_of_fmap in Hin as ([p m] & -> & Hpm).
    destruct (nodes_below_lookup _ Hwf p m Hpm) as (? & ? & _). done. }
  split; [done|]. split; [done|].
  exists (List.filter (Policy.keeps cwd self) tree).
  assert (List.filter (Policy.keeps cwd self) tree `sublist_of` tree) as Hsub.
  { clear. induction tree as [|e tree IH]; simpl; [constructor|].
    destruct (Policy.keeps cwd self e);
      [by apply sublist_skip|by apply sublist_cons]. }
  split; [|split; [done|]].
  - apply filter_as_conjunction. rewrite Forall_forall in Hshape.
    intros e He. by apply Hshape.
  - eapply sublist_NoDup; [done|]. by apply fmap_sublist.
Qed.

Lemma local_tree_has_unique_paths_witness :
  local.well_formed local.example_site
  ∧ ∃ tree, local.filetree local.example_site = Some tree
            ∧ NoDup (path <$> tree)
            ∧ ∃ out,
                IgnoreFiles.filter IgnoreExamples.cwd
                  (IgnoreExamples.ignore false false) tree = Some out
                ∧ out `sublist_of` tree ∧ NoDup (path <$> out).
Proof.
  split; [exact example_site_well_formed|].
  eexists. split; [vm_compute; reflexivity|].
  pose proof (local_tree_has_unique_paths local.example_site _
                IgnoreExamples.cwd (IgnoreExamples.ignore false false)
                example_site_well_formed eq_refl) as (Hnd & _ & Hout).
  split; [exact Hnd|exact Hout].
Defined.

(** ** Applying the plan *)





(** ** Lookup after filtering, and the symmetry of the pairing *)

(** X22: when no two entries share a path, filtering leaves the lookup of
    every kept entry as it was and makes the lookup of every dropped entry
    fail; the filtered tree still has no two entries with the same path. *)
Theorem filter_then_find (self : FileTree)
    (condition : FileTreeEntry → bool) (Hunique : NoDup (path <$> self)) :
  (∀ p, FileTree.find (FileTree.filter self condition) p
        = e ← FileTree.find self p; if condition e then Some e else None)
  ∧ NoDup (path <$> FileTree.filter self condition).
Proof.
  unfold FileTree.filter. split.
  - intros p. induction self as [|x self IH]; [done|].
    rewrite fmap_cons in Hunique. apply NoDup_cons in Hunique as [Hnotin Hnd].
    simpl. case_bool_decide as Hp.
    + simpl. destruct (condition x) eqn:Hx.
      * simpl. by rewrite bool_decide_eq_true_2.
      * apply find_None. intros e [He _]%list_elem_of_In%filter_In Hpe.
        apply Hnotin. rewrite Hp, <-Hpe.
        by apply list_elem_of_fmap_2, list_elem_of_In.
    + rewrite <-IH by done. destruct (condition x); [|done].
      simpl. by rewrite bool_decide_eq_false_2.
  - eapply sublist_NoDup; [done|]. apply fmap_sublist.
    clear. induction self as [|e self IH]; simpl; [constructor|].
    destruct (condition e); [by apply sublist_skip|by apply sublist_cons].
Qed.

Lemma filter_then_find_witness :
  NoDup (path <$> Doctests.local)
  ∧ FileTree.find
      (FileTree.filter Doctests.local (λ e, negb (is_directory e)))
      "dir_locally" = None
  ∧ FileTree.find
      (FileTree.filter Doctests.local (λ e, negb (is_directory e)))
      "images"
    = FileTree.find Doctests.local "images".
Proof.
  assert (NoDup (path <$> Doctests.local)) as Hl.
  { apply (bool_decide_unpack _). vm_compute. exact I. }
  split; [exact Hl|].
  pose proof (proj1 (filter_then_find Doctests.local
                       (λ e, negb (is_directory e)) Hl)) as Hfind.
  split; [exact (Hfind "dir_locally")|exact (Hfind "images")].
Defined.

(** X23: the pairing is symmetric: pairing the trees the other way round
    gives the same keys in the same order, with the components of each pair
    swapped. *)
Theorem zip_is_symmetric (self other : FileTree) :
  FileTree.all_paths other self = FileTree.all_paths self other
  ∧ FileTree.zip other self
    = (λ '(l, r), (r, l)) <$> FileTree.zip self other.
Proof.
  assert (FileTree.all_paths other self = FileTree.all_paths self other)
    as Hkeys.
  { unfold FileTree.all_paths, FileTree.sorted_set. f_equal. f_equal.
    apply set_eq. intros p. rewrite !elem_of_list_to_set, !elem_of_app. tauto. }
  split; [done|]. unfold FileTree.zip. rewrite Hkeys, <-list_fmap_compose.
  done.
Qed.
